(** * coaster: the diagnostic log formatter and the naming helpers

    A shallow embedding of [coaster/logger.py] (the redaction rule
    [filtered_value], [LocalVarFormatter.formatException], [SlackHandler.emit]
    and [TelegramHandler.emit]) and, from the written specification, of the
    slug generator and the compound URL identifiers whose code lives in
    [coaster.sqlalchemy] and [coaster.utils].

    Python text is a sequence of Unicode code points, so a [str] is a list of
    [N]; [len] is [length], [s[:n]] is [take n s] and [+] is [++]. *)

From Stdlib Require Import ZArith NArith Lia Bool List Sorted FinFun Ascii String.
From Stdlib Require Import DecimalFacts DecimalString DecimalN DecimalZ DecimalNat.
From stdpp Require Import base option list gmap.

Local Open Scope N_scope.

(* ===================================================================== *)
(** * Python strings *)
(* ===================================================================== *)

Abbreviation pystr := (list N).

(** A string literal of the source, as its code points. *)
Definition py (s : string) : pystr := map N_of_ascii (list_ascii_of_string s).

(** [str(n)] for an integer: the decimal digits, with a sign when negative. *)
Definition str_of_Z (z : Z) : pystr := py (NilZero.string_of_int (Z.to_int z)).
Definition str_of_nat (n : nat) : pystr := py (NilZero.string_of_uint (Nat.to_uint n)).

(** [sep.join(parts)] *)
Fixpoint join (sep : pystr) (parts : list pystr) : pystr :=
  match parts with
  | [] => []
  | [p] => p
  | p :: rest => p ++ sep ++ join sep rest
  end.

(** [s.startswith(p)] *)
Fixpoint startswith (p s : pystr) : bool :=
  match p, s with
  | [], _ => true
  | _ :: _, [] => false
  | a :: p', b :: s' => (a =? b) && startswith p' s'
  end.

(** [s.count(p)] for a non-empty [p]: the number of non-overlapping
    occurrences, scanning from the left.  [skip] is the number of characters
    still covered by the occurrence found last. *)
Fixpoint count_from (p : pystr) (skip : nat) (s : pystr) : nat :=
  match s with
  | [] => 0%nat
  | _ :: r =>
      match skip with
      | S k => count_from p k r
      | O => if startswith p s then S (count_from p (Nat.pred (length p)) r)
             else count_from p 0 r
      end
  end.

Definition count (p s : pystr) : nat := count_from p 0 s.

(** ** Character classes

    The classes of ASCII characters are written out.  For the code points
    from U+0080 on, [str.isprintable] and the regular-expression classes
    [\d] and [\w] read the Unicode character database of the interpreter,
    which is not part of the repository: it is a parameter of the model. *)

Record unicode_db := {
  uni_isdecimal : N -> bool;   (* category Nd: matched by \d *)
  uni_isalnum : N -> bool;     (* str.isalnum: with _, matched by \w *)
  uni_isprintable : N -> bool  (* str.isprintable: kept as is by repr *)
}.

(** The database restricted to Latin-1 (U+0080 to U+00FF), where no
    character is a decimal digit. *)
Definition latin1_db : unicode_db := {|
  uni_isdecimal := fun _ => false;
  uni_isalnum := fun c =>
    (c =? 0xAA) || (c =? 0xB2) || (c =? 0xB3) || (c =? 0xB5) || (c =? 0xB9) ||
    (c =? 0xBA) || ((0xBC <=? c) && (c <=? 0xBE)) ||
    ((0xC0 <=? c) && (c <=? 0xD6)) || ((0xD8 <=? c) && (c <=? 0xF6)) ||
    ((0xF8 <=? c) && (c <=? 0xFF));
  uni_isprintable := fun c => (0xA1 <=? c) && (c <=? 0xFF) && negb (c =? 0xAD)
|}.

Definition is_ascii (c : N) : bool := c <? 128.
Definition ascii_digit (c : N) : bool := (48 <=? c) && (c <=? 57).
Definition ascii_upper (c : N) : bool := (65 <=? c) && (c <=? 90).
Definition ascii_lower (c : N) : bool := (97 <=? c) && (c <=? 122).
Definition ascii_alnum (c : N) : bool := ascii_digit c || ascii_upper c || ascii_lower c.

(** [str.isspace] of one character. *)
Definition is_space (c : N) : bool :=
  ((0x09 <=? c) && (c <=? 0x0D)) || ((0x1C <=? c) && (c <=? 0x20)) ||
  (c =? 0x85) || (c =? 0xA0) || (c =? 0x1680) ||
  ((0x2000 <=? c) && (c <=? 0x200A)) || (c =? 0x2028) || (c =? 0x2029) ||
  (c =? 0x202F) || (c =? 0x205F) || (c =? 0x3000).

(** [s.strip()] *)
Fixpoint lstrip (s : pystr) : pystr :=
  match s with
  | c :: r => if is_space c then lstrip r else s
  | [] => []
  end.
Definition rstrip (s : pystr) : pystr := rev (lstrip (rev s)).
Definition strip (s : pystr) : pystr := rstrip (lstrip s).

(* ===================================================================== *)
(** * The two regular expressions of [logger.py] *)
(* ===================================================================== *)

(** The replacement text of [_card_re.sub] and the [str] and [repr] of
    [FilteredValueIndicator]. *)
Definition FILTERED : pystr := py "[Filtered]".

(** ** [_filter_re]: the sensitive keywords

    [re.VERBOSE] drops the white space of the pattern, which leaves one
    group of fifteen alternatives. *)
Definition filter_keywords : list pystr :=
  [ py "password"; py "secret"; py "passwd"; py "api_key"; py "apikey";
    py "access_token"; py "auth_token"; py "_token"; py "token_";
    py "credentials"; py "mysql_pwd"; py "stripetoken"; py "cardnumber";
    py "email"; py "phone" ].

(** The lower-case mapping [re.IGNORECASE] applies to a character of the
    subject, as far as it reaches the letters of the keywords: the ASCII
    capitals, U+0130 (capital I with dot) and U+212A (the Kelvin sign). *)
Definition sre_lower (c : N) : N :=
  if ascii_upper c then c + 32
  else if c =? 0x130 then 0x69
  else if c =? 0x212A then 0x6B
  else c.

(** A keyword character [p] (lower case or [_]) against a subject character
    [c] under [re.IGNORECASE]; U+017F (long s) and U+0131 (dotless i) are the
    two further case variants the [re] module adds for [s] and [i]. *)
Definition ci_char (p c : N) : bool :=
  (sre_lower c =? p) || ((p =? 0x73) && (c =? 0x17F)) || ((p =? 0x69) && (c =? 0x131)).

Fixpoint ci_startswith (kw s : pystr) : bool :=
  match kw, s with
  | [], _ => true
  | _ :: _, [] => false
  | p :: kw', c :: s' => ci_char p c && ci_startswith kw' s'
  end.

(** [bool(_filter_re.search(key))]: some keyword starts somewhere in [key]. *)
Fixpoint filter_re_search (key : pystr) : bool :=
  existsb (fun kw => ci_startswith kw key) filter_keywords ||
  match key with
  | [] => false
  | _ :: rest => filter_re_search rest
  end.

Section CardRegex.

Context (udb : unicode_db).

(** [\d] and [\w] of a [str] pattern. *)
Definition is_digit (c : N) : bool :=
  if is_ascii c then ascii_digit c else uni_isdecimal udb c.
Definition is_word (c : N) : bool :=
  if is_ascii c then ascii_alnum c || (c =? 0x5F) else uni_isalnum udb c.

(** [\b]: exactly one of the characters before and after the position is a
    word character; there is none before the start and none after the end. *)
Definition opt_word (o : option N) : bool :=
  match o with Some c => is_word c | None => false end.
Definition word_boundary (prev next : option N) : bool :=
  xorb (opt_word prev) (opt_word next).

(** The separators [[ -]]. *)
Definition is_sep (c : N) : bool := (c =? 0x20) || (c =? 0x2D).

(** ** [_card_re = \b(?:\d[ -]*?){13,16}\b]

    The lazy [[ -]*?] after a digit [p]: what follows ([next], given the
    character before it and the text left) is tried with no separator
    taken, then with one more each time it fails.  [taken] counts the
    separators taken; the result is the number of characters matched from
    the digit on. *)
Fixpoint lazy_seps (next : option N -> pystr -> option nat) (p : N) (r : pystr)
    (taken : nat) {struct r} : option nat :=
  match next (Some p) r with
  | Some n => Some (S taken + n)%nat
  | None =>
      match r with
      | sp :: r' => if is_sep sp then lazy_seps next sp r' (S taken) else None
      | [] => None
      end
  end.

(** [card_until prev s count] is the backtracking search of the matcher once
    [count] repetitions of the group [\d[ -]*?] are done, [prev] being the
    character before [s]: the greedy [{13,16}] first tries one more
    repetition; when no further repetition leads to a match and
    [count >= 13], the closing [\b] is tried here.  The result is the number
    of characters the match takes from [s]. *)
Fixpoint card_until (prev : option N) (s : pystr) (count : nat) {struct s}
  : option nat :=
  let closing :=
    if (13 <=? count)%nat && word_boundary prev (head s) then Some 0%nat else None in
  match s with
  | c :: rest =>
      if is_digit c && (count <? 16)%nat then
        match lazy_seps (fun p r => card_until p r (S count)) c rest 0 with
        | Some n => Some n
        | None => closing
        end
      else closing
  | [] => closing
  end.

(** [_card_re.match] at one position: the opening [\b], then the group. *)
Definition card_re_match (prev : option N) (s : pystr) : option nat :=
  if word_boundary prev (head s) then card_until prev s 0 else None.

(** [_card_re.sub('[Filtered]', s)]: every match, found from the left and
    not overlapping the one before, is replaced; [skip] is the number of
    characters of the last match still to pass over. *)
Fixpoint card_sub_from (prev : option N) (skip : nat) (s : pystr) : pystr :=
  match s with
  | [] => []
  | c :: r =>
      match skip with
      | S k => card_sub_from (Some c) k r
      | O =>
          match card_re_match prev s with
          | Some n => FILTERED ++ card_sub_from (Some c) (Nat.pred n) r
          | None => c :: card_sub_from (Some c) 0 r
          end
      end
  end.

Definition card_re_sub (s : pystr) : pystr := card_sub_from None 0 s.



End CardRegex.

(* ===================================================================== *)
(** * Python values and their [repr] *)
(* ===================================================================== *)

Inductive pyexc : Type :=
  | TypeError | ValueError | KeyError | RuntimeError
  | AttributeError | ConnectionError | KeyboardInterrupt.

(** The outcome of an expression that may raise. *)
Inductive result (A : Type) : Type :=
  | Ok (a : A)
  | Raise (e : pyexc).
Arguments Ok {A} a.
Arguments Raise {A} e.

Definition rbind {A B} (r : result A) (k : A -> result B) : result B :=
  match r with
  | Ok a => k a
  | Raise e => Raise e
  end.

(** What [Config.__repr__] is bound to: Flask's own method, or the lambda
    [formatException] installs. *)
Inductive config_repr : Type := OriginalRepr | FilteredRepr.

(** The values a local variable, or a key of [f_locals], may hold.  [PyObj]
    is an instance of a user class, given by what its [__repr__] does;
    [PyConfig d] is a [flask.Config] whose dictionary prints as [d]. *)
#[warnings="-register-all"]
Inductive pyval : Type :=
  | PyNone
  | PyBool (b : bool)
  | PyInt (z : Z)
  | PyStr (s : pystr)
  | PyList (l : list pyval)
  | PyConfig (d : pystr)
  | PyObj (r : result pystr)
  | FilteredValueIndicator
  | RepeatValueIndicator (key : pystr).

(** The singleton [filtered_value_indicator]. *)
Definition filtered_value_indicator : pyval := FilteredValueIndicator.

Definition isinstance_str (v : pyval) : bool :=
  match v with PyStr _ => true | _ => false end.

Definition hex_digit (d : N) : N := if d <? 10 then 48 + d else 87 + d.

(** [width] lower-case hexadecimal digits of [n]. *)
Fixpoint hex_fixed (width : nat) (n : N) : pystr :=
  match width with
  | O => []
  | S w => hex_fixed w (n / 16) ++ [hex_digit (n mod 16)]
  end.

Section Repr.

Context (udb : unicode_db).

Definition is_printable (c : N) : bool :=
  if is_ascii c then (0x20 <=? c) && (c <? 0x7F) else uni_isprintable udb c.

(** One character inside the quotes of [repr(s)]. *)
Definition repr_char (quote c : N) : pystr :=
  if (c =? quote) || (c =? 0x5C) then [0x5C; c]
  else if c =? 0x09 then py "\t"
  else if c =? 0x0A then py "\n"
  else if c =? 0x0D then py "\r"
  else if is_printable c then [c]
  else if c <=? 0xFF then py "\x" ++ hex_fixed 2 c
  else if c <=? 0xFFFF then py "\u" ++ hex_fixed 4 c
  else py "\U" ++ hex_fixed 8 c.

(** [repr] of a [str]: double quotes when the text has a single quote and no
    double quote, single quotes otherwise. *)
Definition repr_str (s : pystr) : pystr :=
  let quote :=
    if existsb (N.eqb 0x27) s && negb (existsb (N.eqb 0x22) s) then 0x22 else 0x27 in
  [quote] ++ flat_map (repr_char quote) s ++ [quote].

(** [repr(v)], with [Config.__repr__] bound to [cfg]. *)
Fixpoint repr (cfg : config_repr) (v : pyval) : result pystr :=
  match v with
  | PyNone => Ok (py "None")
  | PyBool b => Ok (if b then py "True" else py "False")
  | PyInt z => Ok (str_of_Z z)
  | PyStr s => Ok (repr_str s)
  | PyList l =>
      rbind
        ((fix items (l : list pyval) : result pystr :=
            match l with
            | [] => Ok []
            | [x] => repr cfg x
            | x :: rest =>
                rbind (repr cfg x) (fun a =>
                rbind (items rest) (fun b => Ok (a ++ py ", " ++ b)))
            end) l)
        (fun body => Ok (py "[" ++ body ++ py "]"))
  | PyConfig d =>
      match cfg with
      | OriginalRepr => Ok (py "<Config " ++ d ++ py ">")
      | FilteredRepr => Ok (py "<Config [FILTERED]>")
      end
  | PyObj r => r
  | FilteredValueIndicator => Ok FILTERED
  | RepeatValueIndicator key => Ok (py "<same as prior " ++ repr_str key ++ py ">")
  end.

(** [str(v)]: the text itself for a [str], [__repr__] for the other types
    (none of them defines [__str__] apart from the two indicators, whose
    [__str__] is their [__repr__]). *)
Definition str (cfg : config_repr) (v : pyval) : result pystr :=
  match v with
  | PyStr s => Ok s
  | _ => repr cfg v
  end.

(* ===================================================================== *)
(** * [filtered_value] *)
(* ===================================================================== *)

(** [[
def filtered_value(key, value):
    if isinstance(key, str) and _filter_re.search(key):
        return filtered_value_indicator
    if isinstance(value, str):
        return _card_re.sub('[Filtered]', value)
    return value
]] *)
Definition filtered_value (key value : pyval) : pyval :=
  if match key with
     | PyStr k => filter_re_search k
     | _ => false
     end
  then filtered_value_indicator
  else
    match value with
    | PyStr s => PyStr (card_re_sub udb s)
    | _ => value
    end.

End Repr.

(* ===================================================================== *)
(** * Stack frames, log records and outbound requests *)
(* ===================================================================== *)

(** An object is a value with an identity; [id(value)] is [obj_id]. *)
Record pyobj := { obj_id : N; obj_val : pyval }.

Record code := { co_name : pystr; co_filename : pystr }.

(** A frame, with the frame of its caller, and a traceback entry, with the
    entry one call deeper. *)
#[warnings="-register-all"]
Inductive frame : Type :=
  | Frame (f_code : code) (f_lineno : Z) (f_locals : list (pyval * pyobj))
          (f_back : option frame).

#[warnings="-register-all"]
Inductive traceback : Type :=
  | Traceback (tb_frame : frame) (tb_next : option traceback).

Definition f_code (f : frame) : code := let 'Frame c _ _ _ := f in c.
Definition f_lineno (f : frame) : Z := let 'Frame _ n _ _ := f in n.
Definition f_locals (f : frame) : list (pyval * pyobj) := let 'Frame _ _ l _ := f in l.
Definition tb_frame (tb : traceback) : frame := let 'Traceback f _ := tb in f.

(** [ei]: the exception type and value, and the traceback, which is [None]
    for an exception that was never raised. *)
Record exc_info := { ei_type : pystr; ei_value : pyval; ei_tb : option traceback }.

(** The attributes of a [logging.LogRecord] the handlers read. *)
Record log_record := {
  module : pystr;
  lineno : Z;
  levelname : pystr;
  message : pystr;
  rec_exc_info : option exc_info;
  exc_text : option pystr
}.

(** One entry of [SLACK_LOGGING_WEBHOOKS]: a dictionary in which every key
    may be missing. *)
Record webhook := {
  wh_levelnames : option (list pystr);
  wh_url : option pystr;
  wh_channel : option pystr;
  wh_username : option pystr;
  wh_icon_emoji : option pystr
}.

Record attachment := { fallback : pystr; pretext : pystr; att_text : pystr }.

Record slack_payload := {
  sp_text : pystr;
  sp_attachments : list attachment;
  sp_channel : option pystr;
  sp_username : option pystr;
  sp_icon_emoji : option pystr
}.

(** A call of [requests.post]. *)
Inductive http_request : Type :=
  | SlackPost (url : pystr) (json : slack_payload)
  | TelegramPost (url : pystr) (chat_id : pystr) (text : pystr).

(* ===================================================================== *)
(** * The state of the module and its statements *)
(* ===================================================================== *)

(** A point in time and a [timedelta], in microseconds. *)
Abbreviation datetime := Z.
Definition five_minutes : Z := 300000000.

(** The process-wide state [logger.py] reads and writes: the method
    [Config.__repr__] is bound to, the formatter's [Lock], the two throttle
    dictionaries; and its surroundings: how often the clock was read, and
    the calls of [requests.post] made so far, latest first. *)
Record world := {
  Config_repr : config_repr;
  lock_held : bool;
  error_throttle_timestamp_slack : gmap (pystr * Z) datetime;
  error_throttle_timestamp_telegram : gmap (pystr * Z) datetime;
  clock_reads : nat;
  requests_made : list http_request
}.

Definition set_Config (c : config_repr) (w : world) : world :=
  {| Config_repr := c; lock_held := lock_held w;
     error_throttle_timestamp_slack := error_throttle_timestamp_slack w;
     error_throttle_timestamp_telegram := error_throttle_timestamp_telegram w;
     clock_reads := clock_reads w; requests_made := requests_made w |}.

Definition set_lock (b : bool) (w : world) : world :=
  {| Config_repr := Config_repr w; lock_held := b;
     error_throttle_timestamp_slack := error_throttle_timestamp_slack w;
     error_throttle_timestamp_telegram := error_throttle_timestamp_telegram w;
     clock_reads := clock_reads w; requests_made := requests_made w |}.

Definition set_throttle_slack (d : gmap (pystr * Z) datetime) (w : world) : world :=
  {| Config_repr := Config_repr w; lock_held := lock_held w;
     error_throttle_timestamp_slack := d;
     error_throttle_timestamp_telegram := error_throttle_timestamp_telegram w;
     clock_reads := clock_reads w; requests_made := requests_made w |}.

Definition set_throttle_telegram (d : gmap (pystr * Z) datetime) (w : world) : world :=
  {| Config_repr := Config_repr w; lock_held := lock_held w;
     error_throttle_timestamp_slack := error_throttle_timestamp_slack w;
     error_throttle_timestamp_telegram := d;
     clock_reads := clock_reads w; requests_made := requests_made w |}.

Definition tick (w : world) : world :=
  {| Config_repr := Config_repr w; lock_held := lock_held w;
     error_throttle_timestamp_slack := error_throttle_timestamp_slack w;
     error_throttle_timestamp_telegram := error_throttle_timestamp_telegram w;
     clock_reads := S (clock_reads w); requests_made := requests_made w |}.

Definition record_request (r : http_request) (w : world) : world :=
  {| Config_repr := Config_repr w; lock_held := lock_held w;
     error_throttle_timestamp_slack := error_throttle_timestamp_slack w;
     error_throttle_timestamp_telegram := error_throttle_timestamp_telegram w;
     clock_reads := clock_reads w; requests_made := r :: requests_made w |}.

(** A statement runs from a world and either never returns ([None]: it waits
    for a lock nobody releases) or ends, normally or by raising, in a world. *)
Definition M (A : Type) : Type := world -> option (result A * world).

Definition ret {A} (a : A) : M A := fun w => Some (Ok a, w).
Definition raise {A} (e : pyexc) : M A := fun w => Some (Raise e, w).
Definition lift {A} (r : result A) : M A := fun w => Some (r, w).

Definition bind {A B} (m : M A) (k : A -> M B) : M B :=
  fun w =>
    match m w with
    | Some (Ok a, w') => k a w'
    | Some (Raise e, w') => Some (Raise e, w')
    | None => None
    end.

Declare Scope py_scope.
Delimit Scope py_scope with py_scope.
Notation "x <- m ;; k" := (bind m (fun x => k))
  (at level 90, m at next level, right associativity) : py_scope.
Notation "m ;;; k" := (bind m (fun _ => k))
  (at level 90, right associativity) : py_scope.

(** [try: body / except: handler], with a bare [except]. *)
Definition try_except {A} (body handler : M A) : M A :=
  fun w =>
    match body w with
    | Some (Raise _, w') => handler w'
    | other => other
    end.

(** [with lock: body]: [acquire] waits while the lock is held; [__exit__]
    releases it whether the body ends normally or raises. *)
Definition with_lock {A} (body : M A) : M A :=
  fun w =>
    if lock_held w then None
    else
      match body (set_lock true w) with
      | Some (r, w') => Some (r, set_lock false w')
      | None => None
      end.

Definition get_Config_repr : M config_repr := fun w => Some (Ok (Config_repr w), w).
Definition set_Config_repr (c : config_repr) : M unit :=
  fun w => Some (Ok tt, set_Config c w).

(** [for x in xs: st = body(st, x)] *)
Fixpoint for_each {A S} (body : S -> A -> M S) (st : S) (xs : list A) : M S :=
  match xs with
  | [] => ret st
  | x :: rest => bind (body st x) (fun st' => for_each body st' rest)
  end.

(* ===================================================================== *)
(** * [LocalVarFormatter.formatException] *)
(* ===================================================================== *)

Local Open Scope py_scope.

(** [while True: if not tb.tb_next: break; tb = tb.tb_next] *)
Fixpoint innermost (tb : traceback) : traceback :=
  match tb with
  | Traceback _ (Some next) => innermost next
  | Traceback _ None => tb
  end.

(** [stack = []; while f: stack.append(f); f = f.f_back] *)
Fixpoint walk_back (f : frame) : list frame :=
  match f with
  | Frame _ _ _ back =>
      f :: match back with
           | Some b => walk_back b
           | None => []
           end
  end.

(** [s.rjust(width)] *)
Definition rjust (width : nat) (s : pystr) : pystr :=
  repeat 0x20 (width - length s)%nat ++ s.

(** [format(v, '>20')], the field [{attr:>20}]: [str] and [int] (with [bool],
    which formats as the integer it is) take an alignment; the
    [__format__] of the other types rejects a format string that is not
    empty. *)
Definition format_right20 (v : pyval) : result pystr :=
  match v with
  | PyStr s => Ok (rjust 20 s)
  | PyInt z => Ok (rjust 20 (str_of_Z z))
  | PyBool b => Ok (rjust 20 (if b then py "1" else py "0"))
  | _ => Raise TypeError
  end.

Definition ERROR_WHILE_PRINTING : pystr := py "<ERROR WHILE PRINTING VALUE>".

Definition NL : pystr := [0x0A].
Definition TAB : pystr := [0x09].

(** [print(text, end=end, file=sio)], as the new content of [sio]. *)
Definition print_end (sio text end_ : pystr) : pystr := sio ++ text ++ end_.
(** [print(text, file=sio)] *)
Definition print (sio text : pystr) : pystr := print_end sio text NL.

(** [if s[-1:] == '\n': s = s[:-1]] *)
Definition chop_newline (s : pystr) : pystr :=
  match rev s with
  | 0x0A :: before => rev before
  | _ => s
  end.

Section Formatter.

Context (udb : unicode_db).

(** [traceback.print_exception(ei[0], ei[1], ei[2], None, sio)]: the text
    the standard library writes for the exception. *)
Context (print_exception : exc_info -> pystr).

(** The four sections that follow the stack dump, for [request], [session],
    [g] and [current_auth]: they read the context Flask keeps for the
    current request and print it with [pprint]; what they append to the
    text so far, or the exception reading the request raises, is given. *)
Context (flask_sections : pystr -> result pystr).

(** The body of [for attr, value in list(frame.f_locals.items())], with the
    text written to [sio] so far and [value_cache] as the loop state. *)
Definition dump_local (name : pystr) (st : pystr * gmap N pystr)
    (item : pyval * pyobj) : M (pystr * gmap N pystr) :=
  let '(sio, value_cache) := st in
  let '(attr, object) := item in
  let idvalue := obj_id object in
  cfg <- get_Config_repr ;;
  seen <-
    match value_cache !! idvalue with
    | Some prior => ret (RepeatValueIndicator prior, value_cache)
    | None =>
        a <- lift (str udb cfg attr) ;;
        ret (obj_val object, <[idvalue := name ++ py "." ++ a]> value_cache)
    end ;;
  let '(value, value_cache) := seen in
  field <- lift (format_right20 attr) ;;
  let sio := print_end sio (TAB ++ field ++ py " = ") (py " ") in
  try_except
    (cfg <- get_Config_repr ;;
     text <- lift (repr udb cfg (filtered_value udb attr value)) ;;
     ret (print sio text, value_cache))
    (ret (print sio ERROR_WHILE_PRINTING, value_cache)).

(** The body of [for frame in stack]. *)
Definition dump_frame (st : pystr * gmap N pystr) (f : frame)
  : M (pystr * gmap N pystr) :=
  let '(sio, value_cache) := st in
  let sio := print sio (NL ++ py "----" ++ NL) in
  let sio := print sio
    (py "Frame " ++ co_name (f_code f) ++ py " in " ++ co_filename (f_code f) ++
     py " at line " ++ str_of_Z (f_lineno f)) in
  for_each (dump_local (co_name (f_code f))) (sio, value_cache) (f_locals f).

(** The block under [with self.lock:]. *)
Definition locked_dump (sio : pystr) (stack : list frame) : M pystr :=
  original_config_repr <- get_Config_repr ;;
  set_Config_repr FilteredRepr ;;;
  let value_cache : gmap N pystr := ∅ in
  let sio := print sio (NL ++ py "----------" ++ NL) in
  let sio := print sio (py "Stack frames (most recent call first):") in
  st <- for_each dump_frame (sio, value_cache) stack ;;
  let '(sio, value_cache) := st in
  set_Config_repr original_config_repr ;;;
  ret sio.

Definition formatException (ei : exc_info) : M pystr :=
  tb <- match ei_tb ei with
        | Some tb => ret tb
        | None => raise AttributeError
        end ;;
  let tb := innermost tb in
  let stack := walk_back (tb_frame tb) in
  let sio := print_exception ei in
  sio <- with_lock (locked_dump sio stack) ;;
  sio <- lift (flask_sections sio) ;;
  ret (chop_newline sio).

End Formatter.

(* ===================================================================== *)
(** * The notification handlers *)
(* ===================================================================== *)

(** [s.split(sep)] for a non-empty [sep]; [cur] is the piece being read,
    latest character first, and [skip] what is left of the separator. *)
Fixpoint split_from (sep : pystr) (skip : nat) (cur s : pystr) : list pystr :=
  match s with
  | [] => [rev cur]
  | c :: r =>
      match skip with
      | S k => split_from sep k cur r
      | O =>
          if startswith sep s
          then rev cur :: split_from sep (Nat.pred (length sep)) [] r
          else split_from sep 0 (c :: cur) r
      end
  end.

Definition split (sep s : pystr) : list pystr := split_from sep 0 [] s.

(** [s.split('\n', 1)] *)
Fixpoint split_nl1_from (cur s : pystr) : list pystr :=
  match s with
  | [] => [rev cur]
  | c :: r => if c =? 0x0A then [rev cur; r] else split_nl1_from (c :: cur) r
  end.

Definition split_nl1 (s : pystr) : list pystr := split_nl1_from [] s.

(** [html.escape(s, False)]: [&], [<] and [>] become entities. *)
Definition escape_char (c : N) : pystr :=
  if c =? 0x26 then py "&amp;"
  else if c =? 0x3C then py "&lt;"
  else if c =? 0x3E then py "&gt;"
  else [c].

Definition escape (s : pystr) : pystr := flat_map escape_char s.

(** [x in l] for a list of strings. *)
Definition str_in (x : pystr) (l : list pystr) : bool :=
  existsb (fun y => bool_decide (x = y)) l.

(** [webhook.get('levelnames', [])] *)
Definition get_levelnames (wh : webhook) : list pystr :=
  match wh_levelnames wh with
  | Some l => l
  | None => []
  end.

Definition ELLIPSIS : pystr := [0x2026].

Section Handlers.

Context (udb : unicode_db).

(** [datetime.utcnow()], by the number of readings before this one. *)
Context (clock : nat -> datetime).

(** [requests.post]: whether the call returns or raises. *)
Context (post : http_request -> result unit).

(** [traceback.format_exception] on the three parts of [exc_info]: the lines of the standard
    traceback, the heading first. *)
Context (format_exception : exc_info -> list pystr).

Definition utcnow : M datetime :=
  fun w => Some (Ok (clock (clock_reads w)), tick w).

Definition requests_post (r : http_request) : M unit :=
  fun w => Some (post r, record_request r w).

(** [key not in d or (datetime.utcnow() - d[key]) > timedelta(minutes=5)];
    the clock is read only when the key is there. *)
Definition not_throttled (d : gmap (pystr * Z) datetime) (key : pystr * Z) : M bool :=
  match d !! key with
  | None => ret true
  | Some t => now <- utcnow ;; ret (five_minutes <? now - t)%Z
  end.

(** ** [SlackHandler] *)

Record SlackHandler := { slack_app_name : pystr; webhooks : list webhook }.

(** The sections of [record.exc_text], each split into its first line and
    the rest. *)
Definition slack_sections (record : log_record) : list (list pystr) :=
  match exc_text record with
  | Some (c :: t) =>
      let double_split := map (split (py "----")) (split (py "----------") (c :: t)) in
      let flat_list := concat double_split in
      map (fun s => split_nl1 (strip s)) flat_list
  | _ => []
  end.

Definition slack_attachment (section : list pystr) : attachment :=
  {| fallback := nth 0 section [];
     pretext := nth 0 section [];
     att_text :=
       if (1 <? length section)%nat
       then py "```" ++ NL ++ nth 1 section [] ++ NL ++ py "```"
       else [] |}.

(** The dictionary [data]; [repr(record.exc_info[1])] may raise. *)
Definition slack_data (self : SlackHandler) (record : log_record) : M slack_payload :=
  cfg <- get_Config_repr ;;
  info <- match rec_exc_info record with
          | Some ei => lift (repr udb cfg (ei_value ei))
          | None => ret []
          end ;;
  ret {| sp_text :=
           py "*" ++ levelname record ++ py "* in " ++ slack_app_name self ++
           py ": " ++ message record ++ py ": `" ++ info ++ py "`";
         sp_attachments := map slack_attachment (slack_sections record);
         sp_channel := None; sp_username := None; sp_icon_emoji := None |}.

(** [payload = dict(data)], then the three optional keys of the webhook. *)
Definition slack_payload_for (data : slack_payload) (wh : webhook) : slack_payload :=
  {| sp_text := sp_text data;
     sp_attachments := sp_attachments data;
     sp_channel := match wh_channel wh with Some c => Some c | None => sp_channel data end;
     sp_username := match wh_username wh with Some u => Some u | None => sp_username data end;
     sp_icon_emoji :=
       match wh_icon_emoji wh with Some e => Some e | None => sp_icon_emoji data end |}.

(** The body of [for webhook in self.webhooks]. *)
Definition slack_deliver (record : log_record) (data : slack_payload)
    (throttle_key : pystr * Z) (_ : unit) (wh : webhook) : M unit :=
  if negb (str_in (levelname record) (get_levelnames wh)) then ret tt
  else
    let payload := slack_payload_for data wh in
    try_except
      (url <- match wh_url wh with
              | Some u => ret u
              | None => raise KeyError
              end ;;
       requests_post (SlackPost url payload))
      (ret tt) ;;;
    now <- utcnow ;;
    fun w => Some (Ok tt,
      set_throttle_slack (<[throttle_key := now]> (error_throttle_timestamp_slack w)) w).

Definition SlackHandler_emit (self : SlackHandler) (record : log_record) : M unit :=
  let throttle_key := (module record, lineno record) in
  d <- (fun w => Some (Ok (error_throttle_timestamp_slack w), w)) ;;
  go <- not_throttled d throttle_key ;;
  if go then
    if negb (str_in (levelname record) (flat_map get_levelnames (webhooks self)))
    then ret tt
    else
      data <- slack_data self record ;;
      for_each (slack_deliver record data throttle_key) tt (webhooks self)
  else ret tt.

(** ** [TelegramHandler] *)

Record TelegramHandler := {
  telegram_app_name : pystr;
  chatid : pystr;
  apikey : pystr
}.

Definition PRE_OPEN : pystr := py "<pre>".
Definition PRE_CLOSE : pystr := py "</pre>".

(** One entry of [traceback_lines] after the loop over them. *)
Definition telegram_frame (stack_frame : pystr) : pystr :=
  let stack_frame_lines := split_nl1 stack_frame in
  join NL
    ([escape (strip (nth 0 stack_frame_lines []))] ++
     map (fun l => PRE_OPEN ++ escape (strip l) ++ PRE_CLOSE)
         (filter (fun l => l <> []) (tail stack_frame_lines)))
  ++ NL.

(** The text before the length check. *)
Definition telegram_full_text (self : TelegramHandler) (record : log_record) : pystr :=
  let text :=
    py "<b>" ++ escape (levelname record) ++ py "</b> in <b>" ++
    escape (telegram_app_name self) ++ py "</b>: " ++ escape (message record) in
  match rec_exc_info record with
  | Some ei =>
      let traceback_lines := rev (tail (format_exception ei)) in
      text ++ (NL ++ NL) ++ join NL (map telegram_frame traceback_lines)
  | None => text
  end.

(** [[
if len(text) > 4096:
    text = text[: 4096 - 7]  # 7 = len('</pre>…')
    if text.count('<pre>') > text.count('</pre>'):
        text += '</pre>'
    text += '…'
]] *)
Definition telegram_cap (text : pystr) : pystr :=
  if (4096 <? length text)%nat then
    let text := take (4096 - 7) text in
    let text :=
      if (count PRE_CLOSE text <? count PRE_OPEN text)%nat then text ++ PRE_CLOSE else text in
    text ++ ELLIPSIS
  else text.

Definition telegram_text (self : TelegramHandler) (record : log_record) : pystr :=
  telegram_cap (telegram_full_text self record).

Definition TelegramHandler_emit (self : TelegramHandler) (record : log_record) : M unit :=
  let throttle_key := (module record, lineno record) in
  d <- (fun w => Some (Ok (error_throttle_timestamp_telegram w), w)) ;;
  go <- not_throttled d throttle_key ;;
  if go then
    let text := telegram_text self record in
    requests_post
      (TelegramPost
         (py "https://api.telegram.org/bot" ++ apikey self ++ py "/sendMessage")
         (chatid self) text) ;;;
    now <- utcnow ;;
    fun w => Some (Ok tt,
      set_throttle_telegram (<[throttle_key := now]> (error_throttle_timestamp_telegram w)) w)
  else ret tt.

End Handlers.

(* ===================================================================== *)
(** * [LocalVarFormatter.format] *)
(* ===================================================================== *)





Section Format.

Context (udb : unicode_db).
Context (print_exception : exc_info -> pystr).
Context (flask_sections : pystr -> result pystr).

(** [self.formatMessage(record)]: the line the format string of the
    formatter makes of the record. *)
Context (formatMessage : log_record -> pystr).




End Format.

(* ===================================================================== *)
(** * [TelegramHandler.emit] on a record as the handler receives it *)
(* ===================================================================== *)

(** A [LogRecord] as [Handler.handle] passes it to [emit].  The constructor
    of [LogRecord] sets every attribute read here but [message]: that one is
    set by [Formatter.format], and [emit] does not call [self.format], so the
    attribute is there only when some formatter has formatted the record
    before.  A [log_record] is such a record together with its [message]. *)
Record LogRecord := {
  lr_module : pystr;
  lr_lineno : Z;
  lr_levelname : pystr;
  lr_message : option pystr;
  lr_exc_info : option exc_info;
  lr_exc_text : option pystr
}.

Definition formatted (record : LogRecord) (message : pystr) : log_record :=
  {| module := lr_module record; lineno := lr_lineno record;
     levelname := lr_levelname record; message := message;
     rec_exc_info := lr_exc_info record; exc_text := lr_exc_text record |}.

Section EmitRecord.

Context (clock : nat -> datetime).
Context (post : http_request -> result unit).
Context (format_exception : exc_info -> list pystr).

(** [record.message]: [AttributeError] when the attribute is not there. *)
Definition getattr_message (record : LogRecord) : M pystr :=
  match lr_message record with
  | Some message => ret message
  | None => raise AttributeError
  end.

(** [TelegramHandler.emit]: the throttle test; then the text, for which
    [record.message] is read; then the request and the write to the table. *)
Definition TelegramHandler_emit_record (self : TelegramHandler) (record : LogRecord)
  : M unit :=
  let throttle_key := (lr_module record, lr_lineno record) in
  d <- (fun w => Some (Ok (error_throttle_timestamp_telegram w), w)) ;;
  go <- not_throttled clock d throttle_key ;;
  if go then
    message <- getattr_message record ;;
    let text := telegram_text format_exception self (formatted record message) in
    requests_post post
      (TelegramPost
         (py "https://api.telegram.org/bot" ++ apikey self ++ py "/sendMessage")
         (chatid self) text) ;;;
    now <- utcnow clock ;;
    fun w => Some (Ok tt,
      set_throttle_telegram (<[throttle_key := now]> (error_throttle_timestamp_telegram w)) w)
  else ret tt.

End EmitRecord.

(* ===================================================================== *)
(** * [coaster/utils/datetime.py]: [sorted_timezones] *)
(* ===================================================================== *)

Module Datetime.

(** A [datetime.timedelta], by its three attributes. *)
Record timedelta := { days : Z; seconds : Z; microseconds : Z }.

(** [timedelta(seconds=t)]: the constructor normalises, [seconds] is from 0
    to 86399. *)
Definition timedelta_of_seconds (t : Z) : timedelta :=
  {| days := t / 86400; seconds := t mod 86400; microseconds := 0 |}.

Definition divmod (a b : Z) : Z * Z := (a / b, a mod b)%Z.

(** [[
def hourmin(delta):
    if delta.days < 0:
        hours, remaining = divmod(86400 - delta.seconds, 3600)
    else:
        hours, remaining = divmod(delta.seconds, 3600)
    minutes, remaining = divmod(remaining, 60)
    return hours, minutes
]] *)
Definition hourmin (delta : timedelta) : Z * Z :=
  let '(hours, remaining) :=
    if (days delta <? 0)%Z
    then divmod (86400 - seconds delta) 3600
    else divmod (seconds delta) 3600 in
  let '(minutes, remaining) := divmod remaining 60 in
  (hours, minutes).

(** ['%02d' % n] *)
Definition pct_02d (n : Z) : pystr :=
  if (n <? 0)%Z then str_of_Z n
  else if (n <? 10)%Z then py "0" ++ str_of_Z n
  else str_of_Z n.

(** [name.replace('_', ' ')] *)
Definition replace_underscore (name : pystr) : pystr :=
  map (fun c => if c =? 0x5F then 0x20 else c) name.

(** [a < b] on strings: by code points, a proper prefix first. *)
Fixpoint str_ltb (a b : pystr) : bool :=
  match a, b with
  | _, [] => false
  | [], _ :: _ => true
  | x :: a', y :: b' => (x <? y) || ((x =? y) && str_ltb a' b')
  end.

(** [a < b] and [a == b] on [timedelta]: by days, seconds, microseconds. *)
Definition timedelta_ltb (a b : timedelta) : bool :=
  (days a <? days b)%Z ||
  ((days a =? days b)%Z &&
   ((seconds a <? seconds b)%Z ||
    ((seconds a =? seconds b)%Z && (microseconds a <? microseconds b)%Z))).

Definition timedelta_eqb (a b : timedelta) : bool :=
  (days a =? days b)%Z && (seconds a =? seconds b)%Z &&
  (microseconds a =? microseconds b)%Z.

(** [a < b] on the tuples [(delta, label, name)]. *)
Definition entry_ltb (a b : timedelta * pystr * pystr) : bool :=
  let '(delta1, l1, n1) := a in
  let '(delta2, l2, n2) := b in
  timedelta_ltb delta1 delta2 ||
  (timedelta_eqb delta1 delta2 &&
   (str_ltb l1 l2 || (bool_decide (l1 = l2) && str_ltb n1 n2))).

(** [list.sort()] on such tuples.  The order is total and two tuples that
    compare equal are the same tuple, so the sorted list does not depend on
    how the sort goes about it; here it inserts one by one. *)
Fixpoint insert_sorted (x : timedelta * pystr * pystr)
    (l : list (timedelta * pystr * pystr)) : list (timedelta * pystr * pystr) :=
  match l with
  | [] => [x]
  | y :: rest => if entry_ltb x y then x :: l else y :: insert_sorted x rest
  end.

Definition sort (l : list (timedelta * pystr * pystr)) : list (timedelta * pystr * pystr) :=
  fold_right insert_sorted [] l.

(** A list comprehension whose element expression may raise. *)
Fixpoint comprehension {A B} (f : A -> result B) (l : list A) : result (list B) :=
  match l with
  | [] => Ok []
  | x :: rest => rbind (f x) (fun y => rbind (comprehension f rest) (fun ys => Ok (y :: ys)))
  end.

Section SortedTimezones.

(** What [pytz] provides: the list [common_timezones]; the mapping
    [country_timezones], as its keys in the order of iteration, each with
    its list of zones; the mapping [country_names]; and for a zone its
    offset from UTC and its abbreviation, both at the present time with
    [is_dst=False]. *)
Context (common_timezones : list pystr).
Context (country_timezones : list (pystr * list pystr)).
Context (country_names : gmap pystr pystr).
Context (utcoffset : pystr -> timedelta).
Context (tzname : pystr -> pystr).

(** [[
timezone_country = {}
for countrycode in pytz.country_timezones:
    for timezone in pytz.country_timezones[countrycode]:
        timezone_country[timezone] = countrycode
]] *)
Definition timezone_country : gmap pystr pystr :=
  fold_left
    (fun d entry =>
       fold_left (fun d timezone => <[timezone := fst entry]> d) (snd entry) d)
    country_timezones ∅.

(** The condition of the first comprehension. *)
Definition kept (tzname : pystr) : bool :=
  negb (startswith (py "US/") tzname) &&
  negb (startswith (py "Canada/") tzname) &&
  negb (str_in tzname [py "GMT"; py "UTC"]).

Definition timezones : list (timedelta * pystr) :=
  map (fun tzname => (utcoffset tzname, tzname)) (filter kept common_timezones).

(** [(delta.days < 0 and '-') or
     (delta.days == 0 and delta.seconds == 0 and ' ') or '+'] *)
Definition sign (delta : timedelta) : pystr :=
  if (days delta <? 0)%Z then py "-"
  else if (days delta =? 0)%Z && (seconds delta =? 0)%Z then py " "
  else py "+".

(** [(pytz.country_names[timezone_country[name]] + ': ')
     if name in timezone_country else ''] *)
Definition country_prefix (name : pystr) : result pystr :=
  match timezone_country !! name with
  | Some countrycode =>
      match country_names !! countrycode with
      | Some country => Ok (country ++ py ": ")
      | None => Raise KeyError
      end
  | None => Ok []
  end.

(** ['%s%s - %s%s (%s)' % (...)] *)
Definition label (delta : timedelta) (name : pystr) : result pystr :=
  let '(hours, minutes) := hourmin delta in
  rbind (country_prefix name) (fun country =>
  Ok (sign delta ++ (pct_02d hours ++ py ":" ++ pct_02d minutes) ++ py " - " ++
      country ++ replace_underscore name ++ py " (" ++ tzname name ++ py ")")).

Definition sorted_timezones : result (list (pystr * pystr)) :=
  rbind
    (comprehension
       (fun entry : timedelta * pystr =>
          let '(delta, name) := entry in
          rbind (label delta name) (fun l => Ok (delta, l, name)))
       timezones)
    (fun presorted =>
       Ok (map (fun entry : timedelta * pystr * pystr =>
                  let '(delta, label, name) := entry in (name, label))
               (sort presorted))).

End SortedTimezones.

End Datetime.

(* ===================================================================== *)
(** * The slug generator *)
(* ===================================================================== *)

Module Naming.

(** Modelled from the spec: the names taken in one scope.  [make_name] and
    the mixins that call it are in [coaster.sqlalchemy], which is not among
    the sources; section 4.1 of the specification has a name taken when it is
    "present either in the persistent store restricted to scope, or among
    uncommitted sibling entities pending in the same transaction". *)
Record scope := { stored : list pystr; pending : list pystr }.

Definition empty_scope : scope := {| stored := []; pending := [] |}.

Definition HYPHEN : N := 0x2D.

(** Modelled from the spec: "lowercase", on the letters of ASCII. *)
Definition lower_char (c : N) : N := if ascii_upper c then c + 32 else c.

(** Modelled from the spec: "replace separators/punctuation with a single
    hyphen" ("non-alphanumeric runs collapsed to a single separator" in
    section 3); [in_run] tells that the character before was replaced. *)
Fixpoint hyphenate (in_run : bool) (s : pystr) : pystr :=
  match s with
  | [] => []
  | c :: r =>
      if ascii_alnum c then c :: hyphenate false r
      else if in_run then hyphenate true r
      else HYPHEN :: hyphenate true r
  end.

(** Modelled from the spec: "strip leading/trailing hyphens". *)
Fixpoint lstrip_hyphens (s : pystr) : pystr :=
  match s with
  | c :: r => if c =? HYPHEN then lstrip_hyphens r else s
  | [] => []
  end.

Definition strip_hyphens (s : pystr) : pystr :=
  rev (lstrip_hyphens (rev (lstrip_hyphens s))).

Section MakeName.

(** The Unicode folding of the title to ASCII, which the specification names
    and leaves to the library that does it. *)
Context (unicode_fold : pystr -> pystr).

(** Modelled from the spec: the normalization of a title, step by step as
    section 4.1 lists it: "Unicode-fold, lowercase, replace
    separators/punctuation with a single hyphen, strip leading/trailing
    hyphens, truncate to maxLength if set (unlimited if not)". *)
Definition normalize (title : pystr) (maxLength : option nat) : pystr :=
  let folded := unicode_fold title in
  let lowered := map lower_char folded in
  let hyphenated := hyphenate false lowered in
  let stripped := strip_hyphens hyphenated in
  match maxLength with
  | Some n => take n stripped
  | None => stripped
  end.

(** Modelled from the spec: a name is taken when it is among the reserved
    names, in the store, or pending. *)
Definition is_taken (reserved : list pystr) (sc : scope) (name : pystr) : bool :=
  str_in name reserved || str_in name (stored sc) || str_in name (pending sc).

(** Modelled from the spec: "append an integer suffix starting at 2,
    incrementing until free".  The search is unbounded in the specification;
    here it gives up after [fuel] candidates, and [makeName] gives it one
    more than there are names taken, which is always enough
    ([first_free_enough]). *)
Fixpoint first_free (taken : pystr -> bool) (name : pystr) (suffix fuel : nat)
  : option pystr :=
  match fuel with
  | O => None
  | S fuel' =>
      let candidate := name ++ str_of_nat suffix in
      if taken candidate then first_free taken name (S suffix) fuel'
      else Some candidate
  end.

(** Modelled from the spec: [makeName(title, scope?, reservedNames=[],
    maxLength=N) -> name] of section 4.1; an empty normalized name "is an
    error unless the entity explicitly allows blank names". *)
Definition makeName (title : pystr) (sc : scope) (reservedNames : list pystr)
    (maxLength : option nat) (allow_blank : bool) : result pystr :=
  let name := normalize title maxLength in
  if bool_decide (name = []) && negb allow_blank then Raise ValueError
  else if is_taken reservedNames sc name then
    match first_free (is_taken reservedNames sc) name 2
            (S (length (reservedNames ++ stored sc ++ pending sc))) with
    | Some candidate => Ok candidate
    | None => Raise RuntimeError
    end
  else Ok name.

(** Modelled from the spec: creating an entity gives it the name [makeName]
    finds and adds it to the scope, not yet persisted. *)
Definition create (title : pystr) (sc : scope) (reservedNames : list pystr)
    (maxLength : option nat) : result (pystr * scope) :=
  rbind (makeName title sc reservedNames maxLength false)
    (fun name => Ok (name, {| stored := stored sc; pending := name :: pending sc |})).

(** Creating one entity after the other; the names come in the order of
    creation. *)
Fixpoint create_all (titles : list pystr) (sc : scope) (reservedNames : list pystr)
    (maxLength : option nat) : result (list pystr * scope) :=
  match titles with
  | [] => Ok ([], sc)
  | title :: rest =>
      rbind (create title sc reservedNames maxLength) (fun '(name, sc') =>
      rbind (create_all rest sc' reservedNames maxLength) (fun '(names, sc'') =>
      Ok (name :: names, sc'')))
  end.

End MakeName.

(** Every name that is out of reach in a scope. *)
Definition all_names (reserved : list pystr) (sc : scope) : list pystr :=
  reserved ++ stored sc ++ pending sc.

(** The scope with one more entity, not yet persisted. *)
Definition add_pending (name : pystr) (sc : scope) : scope :=
  {| stored := stored sc; pending := name :: pending sc |}.

(** The name of the [k]-th of the entities that share the normalized name
    [base]: [base] itself, then [base2], [base3], ... *)
Definition numbered (base : pystr) (k : nat) : pystr :=
  match k with
  | 1%nat => base
  | _ => base ++ str_of_nat k
  end.

End Naming.

(* ===================================================================== *)
(** * Compound URL identifiers *)
(* ===================================================================== *)

Module UrlId.

(** ** Digits in a base *)

(** The [width] digits of [n] in base [b], the most significant first. *)
Fixpoint digits_fixed (b : N) (width : nat) (n : N) : list N :=
  match width with
  | O => []
  | S w => digits_fixed b w (n / b) ++ [n mod b]
  end.

(** The digits of [n] in base [b] with no leading zero, none for 0; at most
    [fuel] of them. *)
Fixpoint digits_upto (b : N) (fuel : nat) (n : N) : list N :=
  match fuel with
  | O => []
  | S f => if n =? 0 then [] else digits_upto b f (n / b) ++ [n mod b]
  end.

(** A number has no more digits than bits. *)
Definition digits_of (b : N) (n : N) : list N :=
  digits_upto b (N.to_nat (N.size n)) n.

Definition value_of (b : N) (ds : list N) : N :=
  fold_left (fun acc d => acc * b + d) ds 0.

(** The position of a character in an alphabet. *)
Fixpoint index_of (c : N) (alphabet : pystr) : option N :=
  match alphabet with
  | [] => None
  | a :: rest => if c =? a then Some 0 else option_map N.succ (index_of c rest)
  end.

Definition encode_digits (alphabet : pystr) (ds : list N) : pystr :=
  map (fun d => nth (N.to_nat d) alphabet 0) ds.

(** The digits of a text, when every character is of the alphabet. *)
Fixpoint decode_digits (dec : N -> option N) (s : pystr) : option (list N) :=
  match s with
  | [] => Some []
  | c :: r =>
      match dec c, decode_digits dec r with
      | Some d, Some ds => Some (d :: ds)
      | _, _ => None
      end
  end.

(** The longest run of characters of the alphabet a text begins with. *)
Fixpoint leading_run (dec : N -> option N) (s : pystr) : list N :=
  match s with
  | [] => []
  | c :: r =>
      match dec c with
      | Some d => d :: leading_run dec r
      | None => []
      end
  end.

Definition HYPHEN : N := 0x2D.

(** The longest prefix of characters that satisfy [p]. *)
Fixpoint take_while (p : N -> bool) (s : pystr) : pystr :=
  match s with
  | c :: r => if p c then c :: take_while p r else []
  | [] => []
  end.

(** The text after the last hyphen, the whole text when it has none:
    [s.split('-')[-1]]. *)
Definition after_last_hyphen (s : pystr) : pystr :=
  rev (take_while (fun c => negb (c =? HYPHEN)) (rev s)).

(** ** Integer keys *)

(** Modelled from the spec: the identifiers of [coaster.sqlalchemy], which
    is not among the sources.  Section 4.2: for an entity with an integer key
    the "identifier is the decimal string of the key, optionally joined with
    the slug via a hyphen"; the key is a primary key the store counts from
    1. *)
Definition url_id_int (id : N) : pystr := str_of_Z (Z.of_N id).

Definition url_id_name_int (id : N) (name : pystr) : pystr :=
  url_id_int id ++ py "-" ++ name.

Definition unpy (s : pystr) : string := string_of_list_ascii (map ascii_of_N s).

(** Modelled from the spec: the reverse lookup of section 4.2 must "extract
    only the leading numeric/hex key" and "malformed keys must compare as
    'no match' rather than raising": the leading run of decimal digits is
    read as a number, and there is no key when the run is empty. *)
Definition parse_url_id_name_int (s : pystr) : option N :=
  match NilZero.uint_of_string (unpy (take_while ascii_digit s)) with
  | Some d => Some (N.of_uint d)
  | None => None
  end.

(** ** UUID keys *)

(** A UUID is a number below [2^128]. *)
Definition is_uuid (u : N) : Prop := u < 2 ^ 128.

Definition hex_value (c : N) : option N :=
  if ascii_digit c then Some (c - 48)
  else if (97 <=? c) && (c <=? 102) then Some (c - 87)
  else if (65 <=? c) && (c <=? 70) then Some (c - 55)
  else None.

(** Modelled from the spec: for an entity with a UUID key the "identifier is
    the 32-character hex form (no dashes) of the UUID, optionally joined with
    the slug the same way". *)
Definition uuid_hex (u : N) : pystr := hex_fixed 32 u.

Definition url_id_name_uuid (u : N) (name : pystr) : pystr :=
  uuid_hex u ++ py "-" ++ name.

(** Modelled from the spec: the leading run of hexadecimal digits is the
    key; a run that does not have 32 digits is malformed. *)
Definition parse_url_id_name_uuid (s : pystr) : option N :=
  let run := leading_run hex_value s in
  if bool_decide (length run = 32%nat) then Some (value_of 16 run) else None.

(** Modelled from the spec: the "dashed" encoding of the testable properties
    is the usual way of writing a UUID, in groups of 8, 4, 4, 4 and 12
    digits; [test_uuid_url_id] looks an entity up by its key in this form
    and in the plain one. *)
Definition uuid_dashed (u : N) : pystr :=
  let h := uuid_hex u in
  take 8 h ++ py "-" ++ take 4 (drop 8 h) ++ py "-" ++ take 4 (drop 12 h) ++ py "-" ++
  take 4 (drop 16 h) ++ py "-" ++ drop 20 h.

(** Modelled from the spec: a key given as text, with or without dashes; a
    text that is not 32 hexadecimal digits once the dashes are left out is no
    key. *)
Definition parse_url_id_uuid (s : pystr) : option N :=
  match decode_digits hex_value (List.filter (fun c => negb (c =? HYPHEN)) s) with
  | Some ds => if bool_decide (length ds = 32%nat) then Some (value_of 16 ds) else None
  | None => None
  end.

(** ** The compact encodings *)

Definition base58_alphabet : pystr :=
  py "123456789ABCDEFGHJKLMNPQRSTUVWXYZabcdefghijkmnopqrstuvwxyz".

Definition base64_alphabet : pystr :=
  py "ABCDEFGHIJKLMNOPQRSTUVWXYZabcdefghijklmnopqrstuvwxyz0123456789-_".

(** The number of bytes a number takes, none for 0. *)
Definition byte_length (n : N) : nat := N.to_nat ((N.size n + 7) / 8).

(** Modelled from the spec: the "21-22 character base58/base64-like compact
    encoding" of a UUID.  Base58 writes the 16 bytes of the UUID as a number
    in base 58, after one [1] for each leading zero byte; the alphabet is
    the one that gives the identifier [FRn1p6EnzbhydnssMnHqFZ] of
    [test_uuid_buid_uuid_b58]. *)
Definition uuid_to_base58 (u : N) : pystr :=
  repeat 0x31 (16 - byte_length u) ++ encode_digits base58_alphabet (digits_of 58 u).

(** Modelled from the spec: reading base58 back: the leading [1]s are zero
    bytes, the rest is the number; the bytes must be 16. *)
Definition uuid_from_base58 (s : pystr) : option N :=
  let zeros := length (take_while (N.eqb 0x31) s) in
  match decode_digits (fun c => index_of c base58_alphabet) (drop zeros s) with
  | Some ds =>
      let n := value_of 58 ds in
      if bool_decide ((zeros + byte_length n)%nat = 16%nat) then Some n else None
  | None => None
  end.

(** Modelled from the spec: the identifier with the compact key, which
    [test_uuid_url_id_name] shows as the name, a hyphen and the base58 form
    ([test-FRn1p6EnzbhydnssMnHqFZ]), and its reverse lookup, which reads the
    key after the last hyphen. *)
Definition url_name_uuid_b58 (u : N) (name : pystr) : pystr :=
  name ++ py "-" ++ uuid_to_base58 u.

Definition parse_url_name_uuid_b58 (s : pystr) : option N :=
  uuid_from_base58 (after_last_hyphen s).

(** Modelled from the spec: the base64 form ([buid] in the tests): the 128
    bits and four zero bits as 22 digits of the URL-safe alphabet, which
    gives [dNWIV0p2EeeMJ8OEA9CTXA] in [test_uuid_buid_uuid_b58]; read back,
    the four bits are dropped. *)
Definition uuid_to_base64 (u : N) : pystr :=
  encode_digits base64_alphabet (digits_fixed 64 22 (u * 16)).

Definition uuid_from_base64 (s : pystr) : option N :=
  match decode_digits (fun c => index_of c base64_alphabet) s with
  | Some ds => if bool_decide (length ds = 22%nat) then Some (value_of 64 ds / 16) else None
  | None => None
  end.

(** Checks on one digit, run over a whole alphabet: the digit is read back
    from its character; its character is not the [1] that stands for a zero
    byte; its character is not a hyphen. *)
Definition decodes (alphabet : pystr) (d : N) : bool :=
  match index_of (nth (N.to_nat d) alphabet 0) alphabet with
  | Some d' => d' =? d
  | None => false
  end.

Definition hex_decodes (d : N) : bool :=
  match hex_value (hex_digit d) with
  | Some d' => d' =? d
  | None => false
  end.

Definition not_a_one (d : N) : bool :=
  (d =? 0) || negb (0x31 =? nth (N.to_nat d) base58_alphabet 0).

Definition not_a_hyphen (d : N) : bool :=
  negb (nth (N.to_nat d) base58_alphabet 0 =? HYPHEN).

(** The UUID of the tests, [74d58857-4a76-11e7-8c27-c38403d0935c]. *)
Definition test_uuid : N := 0x74d588574a7611e78c27c38403d0935c.

End UrlId.

(* ===================================================================== *)
(** * Statements about the redaction rule *)
(* ===================================================================== *)

Section RedactionStatements.

Context (udb : unicode_db).




End RedactionStatements.

(* ===================================================================== *)
(** * Statements about the stack dump *)
(* ===================================================================== *)

(** A local variable met earlier in the dump: the name of its frame's
    function, its own name, and the identity of its value. *)
Record occurrence := { occ_frame : pystr; occ_attr : pystr; occ_id : N }.

(** The frame and variable of the first earlier occurrence of the object
    with identity [i], as [frame.variable]. *)
Definition prior_of (earlier : list occurrence) (i : N) : option pystr :=
  match List.find (fun o => occ_id o =? i) earlier with
  | Some o => Some (occ_frame o ++ py "." ++ occ_attr o)
  | None => None
  end.

Definition key_text (k : pyval) : pystr :=
  match k with
  | PyStr s => s
  | _ => []
  end.

(** The names of the local variables are strings, as they are in the frame
    of a function or of a module. *)
Definition string_keyed (locals : list (pyval * pyobj)) : bool :=
  forallb (fun kv => isinstance_str (fst kv)) locals.

Definition occurrences_of (name : pystr) (locals : list (pyval * pyobj)) : list occurrence :=
  map (fun kv => {| occ_frame := name; occ_attr := key_text (fst kv);
                    occ_id := obj_id (snd kv) |}) locals.

Definition frame_occurrences (f : frame) : list occurrence :=
  occurrences_of (co_name (f_code f)) (f_locals f).

Definition stack_occurrences (fs : list frame) : list occurrence :=
  flat_map frame_occurrences fs.

Section FormatterStatements.

Context (udb : unicode_db).

(** The value shown for an object: the object itself the first time, a
    back-reference from then on. *)
Definition shown_value (earlier : list occurrence) (object : pyobj) : pyval :=
  match prior_of earlier (obj_id object) with
  | Some prior => RepeatValueIndicator prior
  | None => obj_val object
  end.

(** The text up to the value, and the text of the value, on the line of a
    local variable. *)
Definition local_head (attr : pystr) : pystr :=
  TAB ++ rjust 20 attr ++ py " = " ++ py " ".

Definition value_text (attr : pystr) (value : pyval) : pystr :=
  match repr udb FilteredRepr (filtered_value udb (PyStr attr) value) with
  | Ok text => text
  | Raise _ => ERROR_WHILE_PRINTING
  end.

Definition local_text (earlier : list occurrence) (attr : pystr) (object : pyobj) : pystr :=
  local_head attr ++ value_text attr (shown_value earlier object) ++ NL.

Fixpoint locals_text (earlier : list occurrence) (name : pystr)
    (locals : list (pyval * pyobj)) : pystr :=
  match locals with
  | [] => []
  | (attr, object) :: rest =>
      local_text earlier (key_text attr) object ++
      locals_text
        (earlier ++ [{| occ_frame := name; occ_attr := key_text attr;
                        occ_id := obj_id object |}])
        name rest
  end.

Definition frame_head (f : frame) : pystr :=
  (NL ++ py "----" ++ NL) ++ NL ++
  (py "Frame " ++ co_name (f_code f) ++ py " in " ++ co_filename (f_code f) ++
   py " at line " ++ str_of_Z (f_lineno f)) ++ NL.

Fixpoint frames_text (earlier : list occurrence) (fs : list frame) : pystr :=
  match fs with
  | [] => []
  | f :: rest =>
      frame_head f ++ locals_text earlier (co_name (f_code f)) (f_locals f) ++
      frames_text (earlier ++ frame_occurrences f) rest
  end.

Definition dump_head : pystr :=
  (NL ++ py "----------" ++ NL) ++ NL ++
  py "Stack frames (most recent call first):" ++ NL.

(** The back-reference marker, [repr(RepeatValueIndicator(prior))]. *)
Definition back_reference (prior : pystr) : pystr :=
  py "<same as prior " ++ repr_str udb prior ++ py ">".

(** The variables met before the one that follows the variables [l1] in the
    frame [F], the frames [fs1] having been dumped before [F]. *)
Definition seen_before (fs1 : list frame) (F : frame) (l1 : list (pyval * pyobj))
  : list occurrence :=
  stack_occurrences fs1 ++ occurrences_of (co_name (f_code F)) l1.

(** The dump of the stack [fs1 ++ F :: fs2], in which the frame [F] has the
    variables [l1], then the variable [a] bound to [object], then [l2]:
    [line] stands for the line of [a]. *)
Definition dump_around (fs1 : list frame) (F : frame) (fs2 : list frame)
    (l1 : list (pyval * pyobj)) (a : pystr) (object : pyobj)
    (l2 : list (pyval * pyobj)) (line : pystr) : pystr :=
  dump_head ++ frames_text [] fs1 ++ frame_head F ++
  locals_text (stack_occurrences fs1) (co_name (f_code F)) l1 ++
  line ++
  locals_text
    (seen_before fs1 F l1 ++
     [{| occ_frame := co_name (f_code F); occ_attr := a; occ_id := obj_id object |}])
    (co_name (f_code F)) l2 ++
  frames_text (stack_occurrences (fs1 ++ [F])) fs2.

Definition string_keyed_frame (f : frame) : bool := string_keyed (f_locals f).

End FormatterStatements.

(** [value_cache] holds, for every identity, the first variable met with it. *)
Definition cache_agrees (cache : gmap N pystr) (earlier : list occurrence) : Prop :=
  forall i, cache !! i = prior_of earlier i.

(** ** Sample inputs *)

(** A fresh process: Flask's own [Config.__repr__], the lock free, nothing
    throttled, no request made. *)
Definition initial_world : world :=
  {| Config_repr := OriginalRepr; lock_held := false;
     error_throttle_timestamp_slack := ∅;
     error_throttle_timestamp_telegram := ∅;
     clock_reads := 0; requests_made := [] |}.

Definition sample_code (name : string) : code :=
  {| co_name := py name; co_filename := py "app.py" |}.

Definition exc_info_of (f : frame) : exc_info :=
  {| ei_type := py "ValueError"; ei_value := PyObj (Ok (py "ValueError('boom')"));
     ei_tb := Some (Traceback f None) |}.

(** [login] calls [check], which raises; both hold the same string object in
    a variable named [password]. *)
Definition the_password : pyobj := {| obj_id := 1; obj_val := PyStr (py "hunter2") |}.
Definition frame_login : frame :=
  Frame (sample_code "login") 10 [(PyStr (py "password"), the_password)] None.
Definition frame_check : frame :=
  Frame (sample_code "check") 20 [(PyStr (py "password"), the_password)] (Some frame_login).

(** The same with the variables named [x]. *)
Definition frame_outer_x : frame :=
  Frame (sample_code "login") 10 [(PyStr (py "x"), the_password)] None.
Definition frame_inner_x : frame :=
  Frame (sample_code "check") 20 [(PyStr (py "x"), the_password)] (Some frame_outer_x).

(** A frame with an object whose [__repr__] raises, between two integers. *)
Definition frame_broken_repr : frame :=
  Frame (sample_code "view") 30
    [ (PyStr (py "a"), {| obj_id := 1; obj_val := PyInt 1 |});
      (PyStr (py "broken"), {| obj_id := 2; obj_val := PyObj (Raise RuntimeError) |});
      (PyStr (py "b"), {| obj_id := 3; obj_val := PyInt 2 |}) ]
    None.

(** The frame of [exec(code, {}, {None: 1})]: the name of its one local
    variable is [None]. *)
Definition frame_exec_none_key : frame :=
  Frame (sample_code "<module>") 1
    [ (PyNone, {| obj_id := 1; obj_val := PyInt 1 |}) ] None.

(** The claim on repeated objects as it is worded: the line of a variable
    whose object was met before always shows the back-reference. *)
Definition back_reference_always (udb : unicode_db)
    (print_exception : exc_info -> pystr) (flask_sections : pystr -> result pystr) : Prop :=
  forall ei tb w fs1 F fs2 l1 a object l2 prior,
    lock_held w = false ->
    ei_tb ei = Some tb ->
    walk_back (tb_frame (innermost tb)) = fs1 ++ F :: fs2 ->
    f_locals F = l1 ++ (PyStr a, object) :: l2 ->
    forallb string_keyed_frame (fs1 ++ F :: fs2) = true ->
    prior_of (seen_before fs1 F l1) (obj_id object) = Some prior ->
    formatException udb print_exception flask_sections ei w =
      Some (rbind
              (flask_sections
                 (print_exception ei ++
                  dump_around udb fs1 F fs2 l1 a object l2
                    (local_head a ++ back_reference udb prior ++ NL)))
              (fun sio => Ok (chop_newline sio)),
            w).

Definition sample_record : log_record :=
  {| module := py "views"; lineno := 42; levelname := py "ERROR";
     message := py "it broke"; rec_exc_info := None; exc_text := None |}.

Definition sample_telegram : TelegramHandler :=
  {| telegram_app_name := py "app"; chatid := py "1"; apikey := py "k" |}.

(* ===================================================================== *)
(** * Statements about the Telegram message *)
(* ===================================================================== *)

(** Text in which every [<] opens one of the tags [<b>], [</b>], or a
    [<pre>] that is closed by [</pre>] with no [<] in between. *)
Inductive markup : pystr -> Prop :=
  | markup_nil : markup []
  | markup_char c s : c <> 0x3C -> markup s -> markup (c :: s)
  | markup_b s : markup s -> markup (py "<b>" ++ s)
  | markup_b_close s : markup s -> markup (py "</b>" ++ s)
  | markup_pre w s :
      Forall (fun c => c <> 0x3C) w -> markup s ->
      markup (PRE_OPEN ++ w ++ PRE_CLOSE ++ s).

(** [balanced k s]: read in front of any text, [s] adds [k] to the number
    of [<pre>] and [k] to the number of [</pre>]. *)
Definition balanced (k : nat) (s : pystr) : Prop :=
  forall X,
    count PRE_OPEN (s ++ X) = (k + count PRE_OPEN X)%nat /\
    count PRE_CLOSE (s ++ X) = (k + count PRE_CLOSE X)%nat.

(** What the truncation may leave at the end of the text, seen before each
    of the texts that can follow it: nothing, the ellipsis, or the closing
    tag and the ellipsis.  [dangling 0 t]: a tag cut short, which counts for
    nothing; [dangling 1 t]: a [<pre>] that is still open. *)
Definition endings : list pystr := [[]; ELLIPSIS; PRE_CLOSE ++ ELLIPSIS].

Definition dangling (opened : nat) (t : pystr) : Prop :=
  forall X, In X endings ->
    count PRE_OPEN (t ++ X) = (opened + count PRE_OPEN X)%nat /\
    count PRE_CLOSE (t ++ X) = count PRE_CLOSE X.

(** The proper prefixes of the four tags. *)
Definition cut_tags : list pystr :=
  [ py "<"; py "<b"; py "</"; py "</b"; py "<p"; py "<pr"; py "<pre";
    py "</p"; py "</pr"; py "</pre" ].

(** A text cut into a balanced text followed by at most one cut tag or one
    open [<pre>]. *)
Definition cut_of (text : pystr) (k : nat) (body : pystr) (opened : nat) (tail : pystr)
  : Prop :=
  text = body ++ tail /\ balanced k body /\ dangling opened tail /\
  (opened = 0 \/ opened = 1)%nat.


(* ===================================================================== *)
(** * Further statements about [logger.py] *)
(* ===================================================================== *)

(** A keyword against a piece of text of the same length, character by
    character under [re.IGNORECASE]. *)
Definition ci_equal (kw v : pystr) : Prop :=
  Forall2 (fun p c => ci_char p c = true) kw v.

(** The first test of [filtered_value]:
    [isinstance(key, str) and _filter_re.search(key)]. *)
Definition sensitive_key (key : pyval) : bool :=
  match key with
  | PyStr k => filter_re_search k
  | _ => false
  end.

(** The number of characters of a text that [\d] matches. *)
Definition digit_count (udb : unicode_db) (s : pystr) : nat :=
  length (List.filter (is_digit udb) s).

(** A value with the content of every [Config] in it left out. *)
Fixpoint scrub (v : pyval) : pyval :=
  match v with
  | PyList l => PyList (map scrub l)
  | PyConfig _ => PyConfig []
  | _ => v
  end.

Definition scrub_locals (locals : list (pyval * pyobj)) : list (pyval * pyobj) :=
  map (fun kv => (fst kv, {| obj_id := obj_id (snd kv); obj_val := scrub (obj_val (snd kv)) |}))
      locals.

Definition scrub_frame (f : frame) : frame :=
  match f with
  | Frame c n locals back => Frame c n (scrub_locals locals) back
  end.

(** A frame that holds a [Config] with a secret key in it, by itself and in
    a list. *)
Definition frame_with_config : frame :=
  Frame (sample_code "render") 5
    [ (PyStr (py "config"),
       {| obj_id := 1; obj_val := PyConfig (py "{'SECRET_KEY': 'hunter2'}") |});
      (PyStr (py "stack"),
       {| obj_id := 2; obj_val := PyList [PyConfig (py "{'SECRET_KEY': 'hunter2'}"); PyInt 1] |}) ]
    None.


(** Whether a report with this key is held back: the table has a time for
    the key, and the clock, at its next reading, is no more than five
    minutes past it. *)
Definition throttled (clock : nat -> datetime) (d : gmap (pystr * Z) datetime)
    (key : pystr * Z) (reads : nat) : bool :=
  match d !! key with
  | None => false
  | Some t => (clock reads - t <=? five_minutes)%Z
  end.

(** The one request [TelegramHandler.emit] makes for a record. *)
Definition telegram_request (format_exception : exc_info -> list pystr)
    (self : TelegramHandler) (record : log_record) : http_request :=
  TelegramPost
    (py "https://api.telegram.org/bot" ++ apikey self ++ py "/sendMessage")
    (chatid self) (telegram_text format_exception self record).

(** A webhook that lists the level of the record. *)
Definition listed (record : log_record) (wh : webhook) : bool :=
  str_in (levelname record) (get_levelnames wh).

(** The requests for a record, webhook by webhook: one to each webhook that
    lists the level and has a [url]. *)
Definition slack_requests (record : log_record) (data : slack_payload)
    (whs : list webhook) : list http_request :=
  flat_map
    (fun wh =>
       if listed record wh then
         match wh_url wh with
         | Some url => [SlackPost url (slack_payload_for data wh)]
         | None => []
         end
       else [])
    whs.

(** [sample_record] as a handler receives it after a formatter has set its
    [message], and a record from the same line that no formatter has seen. *)
Definition sample_LogRecord : LogRecord :=
  {| lr_module := py "views"; lr_lineno := 42; lr_levelname := py "ERROR";
     lr_message := Some (py "it broke"); lr_exc_info := None; lr_exc_text := None |}.

Definition unformatted_LogRecord : LogRecord :=
  {| lr_module := py "views"; lr_lineno := 42; lr_levelname := py "CRITICAL";
     lr_message := None; lr_exc_info := None; lr_exc_text := None |}.

Definition sample_slack : SlackHandler :=
  {| slack_app_name := py "app";
     webhooks :=
       [ {| wh_levelnames := Some [py "ERROR"; py "CRITICAL"];
            wh_url := Some (py "https://hooks.example/1");
            wh_channel := Some (py "#ops"); wh_username := None; wh_icon_emoji := None |};
         {| wh_levelnames := Some [py "WARNING"];
            wh_url := Some (py "https://hooks.example/2");
            wh_channel := None; wh_username := None; wh_icon_emoji := None |};
         {| wh_levelnames := Some [py "ERROR"]; wh_url := None;
            wh_channel := None; wh_username := None; wh_icon_emoji := None |} ] |}.

(** [a <= b] on [timedelta]. *)
Definition timedelta_le (a b : Datetime.timedelta) : Prop :=
  Datetime.timedelta_ltb b a = false.

(** The order of the offsets on the tuples [(delta, label, name)]. *)
Definition by_offset (a b : Datetime.timedelta * pystr * pystr) : Prop :=
  timedelta_le (fst (fst a)) (fst (fst b)).

(** A small [pytz]: five zones, three countries. *)
Definition sample_zones : list pystr :=
  [ py "Asia/Kolkata"; py "UTC"; py "US/Pacific"; py "Europe/London";
    py "America/New_York" ].

Definition sample_country_timezones : list (pystr * list pystr) :=
  [ (py "IN", [py "Asia/Kolkata"]); (py "GB", [py "Europe/London"]);
    (py "US", [py "America/New_York"; py "US/Pacific"]) ].

Definition sample_country_names : gmap pystr pystr :=
  <[py "IN" := py "India"]>
    (<[py "GB" := py "United Kingdom"]> (<[py "US" := py "United States"]> ∅)).

Definition sample_utcoffset (name : pystr) : Datetime.timedelta :=
  if bool_decide (name = py "Asia/Kolkata") then Datetime.timedelta_of_seconds 19800
  else if bool_decide (name = py "America/New_York") then Datetime.timedelta_of_seconds (-18000)
  else if bool_decide (name = py "US/Pacific") then Datetime.timedelta_of_seconds (-28800)
  else Datetime.timedelta_of_seconds 0.

Definition sample_tzname (name : pystr) : pystr :=
  if bool_decide (name = py "Asia/Kolkata") then py "IST"
  else if bool_decide (name = py "America/New_York") then py "EST"
  else if bool_decide (name = py "US/Pacific") then py "PST"
  else if bool_decide (name = py "Europe/London") then py "GMT"
  else py "UTC".

(* ===================================================================== *)
(** * Theorems *)
(* ===================================================================== *)

(* ===================================================================== *)
(** * Properties of [filtered_value] *)
(* ===================================================================== *)

Section FilteredValueFacts.

Context (udb : unicode_db).

(** C2. A key that matches the sensitive keyword pattern makes
    [filtered_value] return the singleton indicator, whatever the value is
    and whatever its type; its [repr] and its [str], the only texts ever
    shown for it, are the fixed marker [[Filtered]]. *)
Theorem filtered_value_sensitive_key (cfg : config_repr) (key : pystr) (value : pyval) :
  filter_re_search key = true ->
  filtered_value udb (PyStr key) value = filtered_value_indicator /\
  repr udb cfg (filtered_value udb (PyStr key) value) = Ok (py "[Filtered]") /\
  str udb cfg (filtered_value udb (PyStr key) value) = Ok (py "[Filtered]").
Proof.
  intros Hkey. unfold filtered_value. rewrite Hkey. repeat split.
Qed.

(** C10. With a key that is not a string the keyword filter is never
    consulted: a value that is not a string comes back unchanged, and a
    string comes back with its card-like runs replaced, which is the only
    masking left. *)
Theorem filtered_value_non_string_key (key value : pyval) :
  isinstance_str key = false ->
  (isinstance_str value = false -> filtered_value udb key value = value) /\
  (forall s, value = PyStr s -> filtered_value udb key value = PyStr (card_re_sub udb s)) /\
  (filtered_value udb key value = filtered_value_indicator ->
   value = filtered_value_indicator).
Proof.
  intros Hkey. unfold filtered_value.
  destruct key; try discriminate Hkey; (repeat split;
    [ intros Hv; destruct value; try reflexivity; discriminate Hv
    | intros s ->; reflexivity
    | destruct value; intros H; try discriminate H; reflexivity ]).
Qed.

End FilteredValueFacts.

Lemma filtered_value_sensitive_key_witness :
  filter_re_search (py "api_key") = true /\
  repr latin1_db FilteredRepr
    (filtered_value latin1_db (PyStr (py "api_key")) (PyStr (py "sk-12345")))
  = Ok (py "[Filtered]").
Proof.
  split; [reflexivity|].
  apply (filtered_value_sensitive_key latin1_db FilteredRepr (py "api_key")
           (PyStr (py "sk-12345"))).
  reflexivity.
Defined.

Lemma filtered_value_non_string_key_witness :
  isinstance_str (PyInt 7) = false /\
  filtered_value latin1_db (PyInt 7) (PyInt 4111111111111111) = PyInt 4111111111111111.
Proof.
  split; [reflexivity|].
  apply (filtered_value_non_string_key latin1_db (PyInt 7) (PyInt 4111111111111111));
    reflexivity.
Defined.

(* ===================================================================== *)
(** * Card-number masking *)
(* ===================================================================== *)

Section CardMasking.

Context (udb : unicode_db).







End CardMasking.



(* ===================================================================== *)
(** * The stack dump of [formatException] *)
(* ===================================================================== *)

Lemma set_Config_same (w : world) : set_Config (Config_repr w) w = w.
Proof. now destruct w. Qed.

Lemma set_Config_twice (c c' : config_repr) (w : world) :
  set_Config c (set_Config c' w) = set_Config c w.
Proof. reflexivity. Qed.

Lemma set_lock_release (w : world) :
  lock_held w = false -> set_lock false (set_lock true w) = w.
Proof. destruct w; cbn; now intros ->. Qed.

Lemma prior_of_snoc (earlier : list occurrence) (o : occurrence) (i : N) :
  prior_of (earlier ++ [o]) i =
  match prior_of earlier i with
  | Some k => Some k
  | None => if occ_id o =? i then Some (occ_frame o ++ py "." ++ occ_attr o) else None
  end.
Proof.
  unfold prior_of. induction earlier as [|e earlier IH]; cbn [app List.find].
  - now destruct (occ_id o =? i).
  - destruct (occ_id e =? i); [reflexivity | exact IH].
Qed.

Lemma occurrences_of_app name l1 l2 :
  occurrences_of name (l1 ++ l2) = occurrences_of name l1 ++ occurrences_of name l2.
Proof. apply map_app. Qed.

Lemma stack_occurrences_app fs1 fs2 :
  stack_occurrences (fs1 ++ fs2) = stack_occurrences fs1 ++ stack_occurrences fs2.
Proof. apply flat_map_app. Qed.

Section FormatterFacts.

Context (udb : unicode_db).
Context (print_exception : exc_info -> pystr).
Context (flask_sections : pystr -> result pystr).

Lemma dump_local_spec name sio cache earlier a object w :
  Config_repr w = FilteredRepr ->
  cache_agrees cache earlier ->
  exists cache',
    dump_local udb name (sio, cache) (PyStr a, object) w =
      Some (Ok (sio ++ local_text udb earlier a object, cache'), w) /\
    cache_agrees cache'
      (earlier ++ [{| occ_frame := name; occ_attr := a; occ_id := obj_id object |}]).
Proof.
  intros Hcfg Hagree.
  unfold dump_local, bind, get_Config_repr, lift, ret, try_except.
  rewrite Hcfg, (Hagree (obj_id object)).
  unfold local_text, value_text, shown_value.
  destruct (prior_of earlier (obj_id object)) as [prior|] eqn:Hprior.
  - exists cache. split.
    + cbn [str format_right20]. rewrite ?Hcfg.
      destruct (repr udb FilteredRepr _); unfold print, print_end, local_head;
        now rewrite <- ?app_assoc.
    + intros i. rewrite prior_of_snoc, Hagree. cbn [occ_id].
      destruct (prior_of earlier i) eqn:Hi; [reflexivity|].
      destruct (N.eqb_spec (obj_id object) i) as [<-|]; [congruence | reflexivity].
  - exists (<[obj_id object := name ++ py "." ++ a]> cache). split.
    + cbn [str format_right20]. rewrite ?Hcfg.
      destruct (repr udb FilteredRepr _); unfold print, print_end, local_head;
        now rewrite <- ?app_assoc.
    + intros i. rewrite prior_of_snoc. cbn [occ_id occ_frame occ_attr].
      destruct (N.eqb_spec (obj_id object) i) as [<-|Hne].
      * now rewrite lookup_insert_eq, Hprior.
      * rewrite lookup_insert_ne by exact Hne. rewrite Hagree.
        now destruct (prior_of earlier i).
Qed.

Lemma dump_locals_spec name locals : forall sio cache earlier w,
  Config_repr w = FilteredRepr ->
  string_keyed locals = true ->
  cache_agrees cache earlier ->
  exists cache',
    for_each (dump_local udb name) (sio, cache) locals w =
      Some (Ok (sio ++ locals_text udb earlier name locals, cache'), w) /\
    cache_agrees cache' (earlier ++ occurrences_of name locals).
Proof.
  induction locals as [|[attr object] locals IH]; intros sio cache earlier w Hcfg Hkeys Hagree.
  - exists cache. cbn. now rewrite !app_nil_r.
  - cbn [string_keyed forallb fst] in Hkeys. apply andb_prop in Hkeys as [Hattr Hkeys].
    destruct attr; try discriminate Hattr.
    destruct (dump_local_spec name sio cache earlier s object w Hcfg Hagree)
      as (cache1 & Hstep & Hagree1).
    destruct (IH (sio ++ local_text udb earlier s object) cache1 _ w Hcfg Hkeys Hagree1)
      as (cache2 & Hrest & Hagree2).
    exists cache2. split.
    + cbn [for_each]. unfold bind at 1. rewrite Hstep, Hrest.
      cbn [locals_text key_text]. now rewrite <- app_assoc.
    + cbn [occurrences_of map fst snd key_text] in *.
      now rewrite <- app_assoc in Hagree2.
Qed.

Lemma dump_frame_spec f sio cache earlier w :
  Config_repr w = FilteredRepr ->
  string_keyed_frame f = true ->
  cache_agrees cache earlier ->
  exists cache',
    dump_frame udb (sio, cache) f w =
      Some (Ok (sio ++ frame_head f ++
                locals_text udb earlier (co_name (f_code f)) (f_locals f), cache'), w) /\
    cache_agrees cache' (earlier ++ frame_occurrences f).
Proof.
  intros Hcfg Hkeys Hagree. unfold dump_frame.
  destruct (dump_locals_spec (co_name (f_code f)) (f_locals f)
              (print (print sio (NL ++ py "----" ++ NL))
                 (py "Frame " ++ co_name (f_code f) ++ py " in " ++
                  co_filename (f_code f) ++ py " at line " ++ str_of_Z (f_lineno f)))
              cache earlier w Hcfg Hkeys Hagree) as (cache' & Hrun & Hagree').
  exists cache'. split; [|exact Hagree'].
  rewrite Hrun. unfold print, print_end, frame_head. now rewrite <- ?app_assoc.
Qed.

Lemma dump_frames_spec fs : forall sio cache earlier w,
  Config_repr w = FilteredRepr ->
  forallb string_keyed_frame fs = true ->
  cache_agrees cache earlier ->
  exists cache',
    for_each (dump_frame udb) (sio, cache) fs w =
      Some (Ok (sio ++ frames_text udb earlier fs, cache'), w).
Proof.
  induction fs as [|f fs IH]; intros sio cache earlier w Hcfg Hkeys Hagree.
  - exists cache. cbn. now rewrite app_nil_r.
  - cbn [forallb] in Hkeys. apply andb_prop in Hkeys as [Hf Hkeys].
    destruct (dump_frame_spec f sio cache earlier w Hcfg Hf Hagree)
      as (cache1 & Hstep & Hagree1).
    destruct (IH (sio ++ frame_head f ++
                  locals_text udb earlier (co_name (f_code f)) (f_locals f))
                cache1 _ w Hcfg Hkeys Hagree1) as (cache2 & Hrest).
    exists cache2. cbn [for_each]. unfold bind at 1. rewrite Hstep, Hrest.
    cbn [frames_text]. now rewrite <- ?app_assoc.
Qed.

(** The block under the lock, for frames whose variables have string
    names: it never raises, writes the dump, and leaves [Config.__repr__]
    as it found it. *)
Lemma locked_dump_spec sio stack w :
  forallb string_keyed_frame stack = true ->
  locked_dump udb sio stack w =
    Some (Ok (sio ++ dump_head ++ frames_text udb [] stack), w).
Proof.
  intros Hkeys. unfold locked_dump, bind at 1 2, get_Config_repr, set_Config_repr.
  destruct (dump_frames_spec stack
              (print (print sio (NL ++ py "----------" ++ NL))
                 (py "Stack frames (most recent call first):"))
              ∅ [] (set_Config FilteredRepr w) eq_refl Hkeys) as (cache & Hrun).
  { intros i. now rewrite lookup_empty. }
  unfold bind. rewrite Hrun. unfold ret.
  rewrite set_Config_twice, set_Config_same.
  unfold print, print_end, dump_head. now rewrite <- ?app_assoc.
Qed.

(** The whole of [formatException] on such a stack: the dump is written,
    the lock is free again and [Config.__repr__] is what it was. *)
Lemma formatException_spec ei tb w :
  lock_held w = false ->
  ei_tb ei = Some tb ->
  forallb string_keyed_frame (walk_back (tb_frame (innermost tb))) = true ->
  formatException udb print_exception flask_sections ei w =
    Some (rbind
            (flask_sections
               (print_exception ei ++ dump_head ++
                frames_text udb [] (walk_back (tb_frame (innermost tb)))))
            (fun sio => Ok (chop_newline sio)),
          w).
Proof.
  intros Hlock Htb Hkeys. unfold formatException. rewrite Htb.
  unfold bind at 1, ret at 1. unfold bind at 1, with_lock. rewrite Hlock.
  rewrite (locked_dump_spec _ _ _ Hkeys), (set_lock_release _ Hlock).
  unfold bind, lift, ret. now destruct (flask_sections _).
Qed.

End FormatterFacts.

Section FormatterClaims.

Context (udb : unicode_db).
Context (print_exception : exc_info -> pystr).
Context (flask_sections : pystr -> result pystr).

Lemma locals_text_app earlier name l1 l2 :
  locals_text udb earlier name (l1 ++ l2) =
  locals_text udb earlier name l1 ++
  locals_text udb (earlier ++ occurrences_of name l1) name l2.
Proof.
  revert earlier. induction l1 as [|[attr object] l1 IH]; intros earlier.
  - cbn. now rewrite app_nil_r.
  - cbn [app locals_text]. rewrite IH. cbn [occurrences_of map fst snd].
    now rewrite <- !app_assoc.
Qed.

Lemma frames_text_app earlier fs1 fs2 :
  frames_text udb earlier (fs1 ++ fs2) =
  frames_text udb earlier fs1 ++
  frames_text udb (earlier ++ stack_occurrences fs1) fs2.
Proof.
  revert earlier. induction fs1 as [|f fs1 IH]; intros earlier.
  - cbn. now rewrite app_nil_r.
  - cbn [app frames_text]. rewrite IH. cbn [stack_occurrences flat_map].
    now rewrite <- !app_assoc.
Qed.

(** The dump around one variable. *)
Lemma frames_text_around fs1 F fs2 l1 a object l2 :
  f_locals F = l1 ++ (PyStr a, object) :: l2 ->
  dump_head ++ frames_text udb [] (fs1 ++ F :: fs2) =
  dump_around udb fs1 F fs2 l1 a object l2
    (local_text udb (seen_before fs1 F l1) a object).
Proof.
  intros Hlocals. unfold dump_around, seen_before.
  rewrite frames_text_app. cbn [frames_text app].
  rewrite Hlocals, locals_text_app. cbn [locals_text key_text].
  rewrite stack_occurrences_app. unfold frame_occurrences at 1.
  cbn [stack_occurrences flat_map]. rewrite app_nil_r.
  unfold frame_occurrences. rewrite Hlocals, occurrences_of_app.
  cbn [occurrences_of map fst snd key_text app].
  now rewrite <- ?app_assoc.
Qed.

Lemma formatException_around ei tb w fs1 F fs2 l1 a object l2 :
  lock_held w = false ->
  ei_tb ei = Some tb ->
  walk_back (tb_frame (innermost tb)) = fs1 ++ F :: fs2 ->
  f_locals F = l1 ++ (PyStr a, object) :: l2 ->
  forallb string_keyed_frame (fs1 ++ F :: fs2) = true ->
  formatException udb print_exception flask_sections ei w =
    Some (rbind
            (flask_sections
               (print_exception ei ++
                dump_around udb fs1 F fs2 l1 a object l2
                  (local_text udb (seen_before fs1 F l1) a object)))
            (fun sio => Ok (chop_newline sio)),
          w).
Proof.
  intros Hlock Htb Hstack Hlocals Hkeys.
  rewrite (formatException_spec udb print_exception flask_sections ei tb w Hlock Htb)
    by now rewrite Hstack.
  rewrite Hstack. now rewrite (frames_text_around fs1 F fs2 l1 a object l2 Hlocals).
Qed.

(** C7. Let the variable [a] of the frame [F] have a value whose rendering
    raises.  Then [formatException] still returns: the line of [a] carries
    the placeholder, the variables after it in the frame and the frames
    after [F] are dumped as usual, the lock is free again and
    [Config.__repr__] is back (the world is the one before the call). *)
Theorem formatException_placeholder ei tb w fs1 F fs2 l1 a object l2 e :
  lock_held w = false ->
  ei_tb ei = Some tb ->
  walk_back (tb_frame (innermost tb)) = fs1 ++ F :: fs2 ->
  f_locals F = l1 ++ (PyStr a, object) :: l2 ->
  forallb string_keyed_frame (fs1 ++ F :: fs2) = true ->
  repr udb FilteredRepr
    (filtered_value udb (PyStr a) (shown_value (seen_before fs1 F l1) object)) = Raise e ->
  formatException udb print_exception flask_sections ei w =
    Some (rbind
            (flask_sections
               (print_exception ei ++
                dump_around udb fs1 F fs2 l1 a object l2
                  (local_head a ++ py "<ERROR WHILE PRINTING VALUE>" ++ NL)))
            (fun sio => Ok (chop_newline sio)),
          w).
Proof.
  intros Hlock Htb Hstack Hlocals Hkeys Hraise.
  rewrite (formatException_around ei tb w fs1 F fs2 l1 a object l2) by assumption.
  unfold local_text, value_text. now rewrite Hraise.
Qed.

(** C6, as amended. Let the object bound to the variable [a] of the frame
    [F] have been met before in the dump, first as [prior].  Then the line
    of [a] shows the back-reference naming [prior], unless the name [a]
    matches the keyword pattern, in which case it shows [[Filtered]]; in
    neither case is the value printed again. *)
Theorem formatException_back_reference ei tb w fs1 F fs2 l1 a object l2 prior :
  lock_held w = false ->
  ei_tb ei = Some tb ->
  walk_back (tb_frame (innermost tb)) = fs1 ++ F :: fs2 ->
  f_locals F = l1 ++ (PyStr a, object) :: l2 ->
  forallb string_keyed_frame (fs1 ++ F :: fs2) = true ->
  prior_of (seen_before fs1 F l1) (obj_id object) = Some prior ->
  formatException udb print_exception flask_sections ei w =
    Some (rbind
            (flask_sections
               (print_exception ei ++
                dump_around udb fs1 F fs2 l1 a object l2
                  (local_head a ++
                   (if filter_re_search a then py "[Filtered]"
                    else py "<same as prior " ++ repr_str udb prior ++ py ">") ++
                   NL)))
            (fun sio => Ok (chop_newline sio)),
          w).
Proof.
  intros Hlock Htb Hstack Hlocals Hkeys Hprior.
  rewrite (formatException_around ei tb w fs1 F fs2 l1 a object l2) by assumption.
  unfold local_text, value_text, shown_value, filtered_value. rewrite Hprior.
  now destruct (filter_re_search a).
Qed.

End FormatterClaims.

(** C7 at work: the object of [broken] raises in [__repr__]; [a] before it
    and [b] after it are printed. *)
Lemma formatException_placeholder_witness :
  formatException latin1_db (fun _ => []) Ok (exc_info_of frame_broken_repr) initial_world =
  Some (Ok (chop_newline
              (dump_head ++ frame_head frame_broken_repr ++
               (local_head (py "a") ++ py "1" ++ NL) ++
               (local_head (py "broken") ++ py "<ERROR WHILE PRINTING VALUE>" ++ NL) ++
               (local_head (py "b") ++ py "2" ++ NL))),
        initial_world).
Proof.
  apply (formatException_placeholder latin1_db (fun _ => []) Ok
           (exc_info_of frame_broken_repr) (Traceback frame_broken_repr None)
           initial_world [] frame_broken_repr []
           [(PyStr (py "a"), {| obj_id := 1; obj_val := PyInt 1 |})]
           (py "broken") {| obj_id := 2; obj_val := PyObj (Raise RuntimeError) |}
           [(PyStr (py "b"), {| obj_id := 3; obj_val := PyInt 2 |})]
           RuntimeError); reflexivity.
Defined.

(** C6 at work: the second [x] refers back to the first. *)
Lemma formatException_back_reference_witness :
  formatException latin1_db (fun _ => []) Ok (exc_info_of frame_inner_x) initial_world =
  Some (Ok (chop_newline
              (dump_head ++
               frame_head frame_inner_x ++
               (local_head (py "x") ++ py "'hunter2'" ++ NL) ++
               frame_head frame_outer_x ++
               (local_head (py "x") ++ py "<same as prior 'check.x'>" ++ NL))),
        initial_world).
Proof.
  apply (formatException_back_reference latin1_db (fun _ => []) Ok
           (exc_info_of frame_inner_x) (Traceback frame_inner_x None)
           initial_world [frame_inner_x] frame_outer_x [] [] (py "x") the_password []
           (py "check.x")); reflexivity.
Defined.

(** C6, as worded, fails: the same object sits in the variable [password]
    of two frames, and both lines show [[Filtered]]; where the claim has a
    back-reference there is none. *)
Lemma back_reference_always_counterexample :
  ~ back_reference_always latin1_db (fun _ => []) Ok.
Proof.
  intros claim.
  specialize (claim (exc_info_of frame_check) (Traceback frame_check None)
                initial_world [frame_check] frame_login [] [] (py "password")
                the_password [] (py "check.password")
                eq_refl eq_refl eq_refl eq_refl eq_refl eq_refl).
  vm_compute in claim. discriminate claim.
Qed.

Section LockAndPatch.

Context (udb : unicode_db).
Context (print_exception : exc_info -> pystr).
Context (flask_sections : pystr -> result pystr).

Lemma dump_local_world name st item w :
  exists r, dump_local udb name st item w = Some (r, w).
Proof.
  destruct st as [sio cache], item as [attr object].
  unfold dump_local, bind, get_Config_repr, lift, ret, try_except.
  destruct (cache !! obj_id object).
  - destruct (format_right20 attr); [|eauto].
    destruct (repr udb (Config_repr w) _); eauto.
  - destruct (str udb (Config_repr w) attr); [|eauto].
    destruct (format_right20 attr); [|eauto].
    destruct (repr udb (Config_repr w) _); eauto.
Qed.

Lemma for_each_world {A S} (body : S -> A -> M S) :
  (forall st x w, exists r, body st x w = Some (r, w)) ->
  forall xs st w, exists r, for_each body st xs w = Some (r, w).
Proof.
  intros Hbody. induction xs as [|x xs IH]; intros st w; cbn [for_each].
  - unfold ret. eauto.
  - unfold bind. destruct (Hbody st x w) as [[st'|e] ->]; [apply IH | eauto].
Qed.

Lemma dump_frame_world st f w :
  exists r, dump_frame udb st f w = Some (r, w).
Proof.
  destruct st as [sio cache]. unfold dump_frame.
  apply for_each_world. apply dump_local_world.
Qed.

(** The block under the lock ends in one of two ways: normally, with
    [Config.__repr__] as it was, or by an exception, with the lambda still
    in place. *)
Lemma locked_dump_cases sio stack w :
  (exists text, locked_dump udb sio stack w = Some (Ok text, w)) \/
  (exists e, locked_dump udb sio stack w = Some (Raise e, set_Config FilteredRepr w)).
Proof.
  destruct (for_each_world (dump_frame udb) dump_frame_world stack
              (print (print sio (NL ++ py "----------" ++ NL))
                 (py "Stack frames (most recent call first):"), ∅)
              (set_Config FilteredRepr w)) as [[[text cache]|e] Hrun].
  - left. exists text.
    unfold locked_dump, bind, get_Config_repr, set_Config_repr, ret.
    rewrite Hrun. now rewrite set_Config_twice, set_Config_same.
  - right. exists e.
    unfold locked_dump, bind, get_Config_repr, set_Config_repr, ret.
    now rewrite Hrun.
Qed.

(** The lock is released on every way out of [formatException], and a call
    made with the lock free always comes to an end. *)
Lemma formatException_releases_lock ei w :
  lock_held w = false ->
  exists r w',
    formatException udb print_exception flask_sections ei w = Some (r, w') /\
    lock_held w' = false.
Proof.
  intros Hlock. unfold formatException.
  destruct (ei_tb ei) as [tb|]; unfold bind at 1, ret at 1, raise; [|eauto].
  unfold bind at 1, with_lock. rewrite Hlock.
  destruct (locked_dump_cases (print_exception ei)
              (walk_back (tb_frame (innermost tb))) (set_lock true w))
    as [[text ->] | [e ->]].
  - unfold bind, lift, ret. destruct (flask_sections text); eauto.
  - eauto.
Qed.

(** When [formatException] returns, [Config.__repr__] is what it was. *)
Lemma formatException_return_restores ei w text w' :
  lock_held w = false ->
  formatException udb print_exception flask_sections ei w = Some (Ok text, w') ->
  w' = w.
Proof.
  intros Hlock. unfold formatException.
  destruct (ei_tb ei) as [tb|]; unfold bind at 1, ret at 1, raise; [|discriminate].
  unfold bind at 1, with_lock. rewrite Hlock.
  destruct (locked_dump_cases (print_exception ei)
              (walk_back (tb_frame (innermost tb))) (set_lock true w))
    as [[text' ->] | [e ->]].
  - rewrite (set_lock_release _ Hlock). unfold bind, lift, ret.
    destruct (flask_sections text'); intros H; inversion H; reflexivity.
  - discriminate.
Qed.

End LockAndPatch.

(** C4, where the code departs from it. In the frame of
    [exec(code, {}, {None: 1})] the field [{attr:>20}] raises [TypeError]
    outside the inner [try]: the exception leaves [formatException] with the
    lock released but with [Config.__repr__] still bound to the lambda,
    though it was Flask's own method before the call. *)
Theorem formatException_exception_keeps_patch :
  exists w',
    formatException latin1_db (fun _ => []) Ok
      (exc_info_of frame_exec_none_key) initial_world = Some (Raise TypeError, w') /\
    lock_held w' = false /\
    Config_repr initial_world = OriginalRepr /\
    Config_repr w' = FilteredRepr.
Proof.
  exists (set_Config FilteredRepr initial_world). repeat split.
Qed.

(* ===================================================================== *)
(** * Delivery failures in the handlers *)
(* ===================================================================== *)

Section DeliveryFailures.

Context (udb : unicode_db).
Context (clock : nat -> datetime).
Context (post : http_request -> result unit).
Context (format_exception : exc_info -> list pystr).

Lemma not_throttled_returns d key w :
  exists b w', not_throttled clock d key w = Some (Ok b, w').
Proof.
  unfold not_throttled. destruct (d !! key); unfold bind, utcnow, ret; eauto.
Qed.

(** One webhook: whatever [requests.post] does, the body of the loop ends
    normally. *)
Lemma slack_deliver_returns record data key wh w :
  exists w', slack_deliver clock post record data key tt wh w = Some (Ok tt, w').
Proof.
  unfold slack_deliver.
  destruct (negb (str_in (levelname record) (get_levelnames wh))); [unfold ret; eauto|].
  unfold bind, try_except, utcnow, requests_post, ret, raise.
  destruct (wh_url wh) as [url|]; [|eauto].
  destruct (post (SlackPost url (slack_payload_for data wh))) as [[]|e]; eauto.
Qed.

Lemma slack_deliver_all_return record data key whs : forall w,
  exists w',
    for_each (slack_deliver clock post record data key) tt whs w = Some (Ok tt, w').
Proof.
  induction whs as [|wh whs IH]; intros w; cbn [for_each].
  - unfold ret. eauto.
  - unfold bind.
    destruct (slack_deliver_returns record data key wh w) as [w1 ->]. apply IH.
Qed.

(** [SlackHandler.emit] swallows every failure of the delivery: if building
    the message does not raise (here: [repr] of the exception value
    returns), the call returns, whatever [requests.post] does. *)
Lemma SlackHandler_emit_returns self record w :
  (forall ei cfg, rec_exc_info record = Some ei ->
                  exists info, repr udb cfg (ei_value ei) = Ok info) ->
  exists w', SlackHandler_emit udb clock post self record w = Some (Ok tt, w').
Proof.
  intros Hrepr. unfold SlackHandler_emit. unfold bind at 1. unfold bind at 1.
  destruct (not_throttled_returns (error_throttle_timestamp_slack w)
              (module record, lineno record) w) as (go & w1 & ->).
  destruct go; [|unfold ret; eauto].
  destruct (negb _); [unfold ret; eauto|].
  unfold bind at 1. unfold slack_data, bind at 1, get_Config_repr.
  destruct (rec_exc_info record) as [ei|] eqn:Hei.
  - destruct (Hrepr ei (Config_repr w1) eq_refl) as [info Hinfo].
    unfold bind, lift. rewrite Hinfo. unfold ret. apply slack_deliver_all_return.
  - unfold bind, ret. apply slack_deliver_all_return.
Qed.

(** C3, where the code departs from it. [TelegramHandler.emit] calls
    [requests.post] outside any [try]: when the record is not throttled and
    the post raises, the same exception leaves [emit], after the request
    was attempted and before the throttle table is written. *)
Theorem TelegramHandler_emit_propagates self record w e :
  error_throttle_timestamp_telegram w !! (module record, lineno record) = None ->
  post (TelegramPost
          (py "https://api.telegram.org/bot" ++ apikey self ++ py "/sendMessage")
          (chatid self) (telegram_text format_exception self record)) = Raise e ->
  TelegramHandler_emit clock post format_exception self record w =
    Some (Raise e,
          record_request
            (TelegramPost
               (py "https://api.telegram.org/bot" ++ apikey self ++ py "/sendMessage")
               (chatid self) (telegram_text format_exception self record)) w).
Proof.
  intros Hkey Hpost.
  unfold TelegramHandler_emit, bind, not_throttled, requests_post, ret.
  now rewrite Hkey, Hpost.
Qed.

(** What [TelegramHandler.emit] posts, when it posts: one request, whose
    text is [telegram_text]. *)
Lemma TelegramHandler_emit_request self record w r w' :
  TelegramHandler_emit clock post format_exception self record w = Some (r, w') ->
  requests_made w' = requests_made w \/
  requests_made w' =
    TelegramPost
      (py "https://api.telegram.org/bot" ++ apikey self ++ py "/sendMessage")
      (chatid self) (telegram_text format_exception self record) :: requests_made w.
Proof.
  unfold TelegramHandler_emit, bind at 1. unfold bind at 1.
  destruct (not_throttled_returns (error_throttle_timestamp_telegram w)
              (module record, lineno record) w) as (go & w1 & Hgo).
  rewrite Hgo.
  assert (Hw1 : requests_made w1 = requests_made w).
  { unfold not_throttled in Hgo. destruct (_ !! _); unfold bind, utcnow, ret in Hgo;
      inversion Hgo; reflexivity. }
  destruct go.
  - unfold bind, requests_post, utcnow. destruct (post _) as [[]|e];
      intros H; inversion H; subst; cbn [requests_made record_request tick
        set_throttle_telegram]; rewrite Hw1; now right.
  - unfold ret. intros H; inversion H; subst. now left.
Qed.

End DeliveryFailures.

Lemma TelegramHandler_emit_propagates_witness :
  exists w',
    TelegramHandler_emit (fun _ => 0%Z) (fun _ => Raise ConnectionError) (fun _ => [])
      sample_telegram sample_record initial_world = Some (Raise ConnectionError, w').
Proof.
  eexists.
  apply (TelegramHandler_emit_propagates (fun _ => 0%Z) (fun _ => Raise ConnectionError)
           (fun _ => []) sample_telegram sample_record initial_world ConnectionError);
    reflexivity.
Defined.

(* ===================================================================== *)
(** * The Telegram message: its length and its [<pre>] tags *)
(* ===================================================================== *)

Lemma markup_app a b : markup a -> markup b -> markup (a ++ b).
Proof.
  intros Ha Hb. induction Ha as [|c s Hc Hs IH|s Hs IH|s Hs IH|w s Hw Hs IH].
  - exact Hb.
  - cbn [app]. now constructor.
  - rewrite <- app_assoc. now constructor.
  - rewrite <- app_assoc. now constructor.
  - rewrite <- !app_assoc. now constructor.
Qed.

Lemma markup_plain w : Forall (fun c => c <> 0x3C) w -> markup w.
Proof. induction 1; now constructor. Qed.

Lemma escape_plain s : Forall (fun c => c <> 0x3C) (escape s).
Proof.
  unfold escape. induction s as [|c s IH]; cbn [flat_map]; [constructor|].
  apply Forall_app. split; [|exact IH].
  unfold escape_char.
  destruct (N.eqb_spec c 0x26); [repeat constructor; discriminate|].
  destruct (N.eqb_spec c 0x3C); [repeat constructor; discriminate|].
  destruct (N.eqb_spec c 0x3E); [repeat constructor; discriminate|].
  repeat constructor. assumption.
Qed.

Lemma markup_escape s : markup (escape s).
Proof. apply markup_plain, escape_plain. Qed.

Lemma markup_join parts : Forall markup parts -> markup (join NL parts).
Proof.
  induction 1 as [|p parts Hp Hparts IH]; [constructor|].
  destruct parts as [|q parts]; [exact Hp|].
  change (join NL (p :: q :: parts)) with (p ++ NL ++ join NL (q :: parts)).
  apply markup_app; [exact Hp|].
  change (NL ++ join NL (q :: parts)) with (0x0A :: join NL (q :: parts)).
  constructor; [discriminate | exact IH].
Qed.

Lemma markup_telegram_frame stack_frame : markup (telegram_frame stack_frame).
Proof.
  unfold telegram_frame. apply markup_app.
  - apply markup_join. apply Forall_app. split.
    + repeat constructor. apply markup_escape.
    + apply Forall_map, Forall_forall. intros l _.
      rewrite <- (app_nil_r PRE_CLOSE).
      apply markup_pre; [apply escape_plain | constructor].
  - repeat constructor. discriminate.
Qed.

Lemma markup_telegram_full_text format_exception self record :
  markup (telegram_full_text format_exception self record).
Proof.
  unfold telegram_full_text.
  assert (Hhead : markup
            (py "<b>" ++ escape (levelname record) ++ py "</b> in <b>" ++
             escape (telegram_app_name self) ++ py "</b>: " ++ escape (message record))).
  { apply markup_b. apply markup_app; [apply markup_escape|].
    change (py "</b> in <b>" ++ ?x) with (py "</b>" ++ (py " in " ++ (py "<b>" ++ x))).
    apply markup_b_close.
    apply markup_app; [apply markup_plain; repeat constructor; discriminate|].
    apply markup_b. apply markup_app; [apply markup_escape|].
    change (py "</b>: " ++ ?x) with (py "</b>" ++ (py ": " ++ x)).
    apply markup_b_close.
    apply markup_app; [apply markup_plain; repeat constructor; discriminate|].
    apply markup_escape. }
  destruct (rec_exc_info record) as [ei|]; [|exact Hhead].
  apply markup_app; [exact Hhead|]. apply markup_app.
  - apply markup_plain. repeat constructor; discriminate.
  - apply markup_join, Forall_map, Forall_forall. intros l _.
    apply markup_telegram_frame.
Qed.

(** A character other than [<] starts no tag. *)
Lemma count_plain_char (p : pystr) (c : N) (X : pystr) :
  c <> 0x3C -> count (0x3C :: p) (c :: X) = count (0x3C :: p) X.
Proof.
  intros Hc. unfold count. cbn [count_from startswith].
  destruct (N.eqb_spec 0x3C c) as [E|_]; [now subst c|]. reflexivity.
Qed.

Lemma count_plain (p w X : pystr) :
  Forall (fun c => c <> 0x3C) w -> count (0x3C :: p) (w ++ X) = count (0x3C :: p) X.
Proof.
  induction 1 as [|c w Hc Hw IH]; [reflexivity|].
  cbn [app]. now rewrite count_plain_char.
Qed.

Lemma balanced_nil : balanced 0 [].
Proof. intros X. split; reflexivity. Qed.

Lemma balanced_app k1 k2 s1 s2 :
  balanced k1 s1 -> balanced k2 s2 -> balanced (k1 + k2) (s1 ++ s2).
Proof.
  intros H1 H2 X. rewrite <- app_assoc.
  destruct (H1 (s2 ++ X)) as [-> ->], (H2 X) as [-> ->]. lia.
Qed.

Lemma balanced_plain w : Forall (fun c => c <> 0x3C) w -> balanced 0 w.
Proof.
  intros Hw X. split; [change PRE_OPEN with (0x3C :: py "pre>")
                      | change PRE_CLOSE with (0x3C :: py "/pre>")];
    now rewrite count_plain.
Qed.

Lemma balanced_b : balanced 0 (py "<b>").
Proof. intros X. split; reflexivity. Qed.

Lemma balanced_b_close : balanced 0 (py "</b>").
Proof. intros X. split; reflexivity. Qed.

Lemma balanced_pre_open_only X :
  count PRE_OPEN (PRE_OPEN ++ X) = S (count PRE_OPEN X) /\
  count PRE_CLOSE (PRE_OPEN ++ X) = count PRE_CLOSE X.
Proof. split; reflexivity. Qed.

Lemma balanced_pre_close_only X :
  count PRE_OPEN (PRE_CLOSE ++ X) = count PRE_OPEN X /\
  count PRE_CLOSE (PRE_CLOSE ++ X) = S (count PRE_CLOSE X).
Proof. split; reflexivity. Qed.

Lemma balanced_pre w : Forall (fun c => c <> 0x3C) w -> balanced 1 (PRE_OPEN ++ w ++ PRE_CLOSE).
Proof.
  intros Hw X. rewrite <- !app_assoc.
  destruct (balanced_pre_open_only (w ++ PRE_CLOSE ++ X)) as [-> ->].
  destruct (balanced_plain w Hw (PRE_CLOSE ++ X)) as [-> ->].
  destruct (balanced_pre_close_only X) as [-> ->]. lia.
Qed.

Lemma markup_balanced s : markup s -> exists k, balanced k s.
Proof.
  induction 1 as [|c s Hc Hs [k IH]|s Hs [k IH]|s Hs [k IH]|w s Hw Hs [k IH]].
  - exists 0%nat. apply balanced_nil.
  - exists (0 + k)%nat. apply (balanced_app 0 k [c] s); [|exact IH].
    apply balanced_plain. now repeat constructor.
  - exists (0 + k)%nat. apply balanced_app; [apply balanced_b | exact IH].
  - exists (0 + k)%nat. apply balanced_app; [apply balanced_b_close | exact IH].
  - exists (1 + k)%nat. rewrite !app_assoc, <- (app_assoc PRE_OPEN).
    apply balanced_app; [now apply balanced_pre | exact IH].
Qed.

Ltac check_endings :=
  intros X HX; cbn [endings In] in HX;
  repeat (destruct HX as [<- | HX]; [split; vm_compute; reflexivity|]);
  contradiction.

Lemma dangling_nil : dangling 0 [].
Proof. check_endings. Qed.

Lemma dangling_cut_tag t : In t cut_tags -> dangling 0 t.
Proof.
  intros Ht. cbn [cut_tags In] in Ht.
  repeat (destruct Ht as [<- | Ht]; [check_endings|]). contradiction.
Qed.

Lemma dangling_open_pre w :
  Forall (fun c => c <> 0x3C) w -> dangling 1 (PRE_OPEN ++ w).
Proof.
  intros Hw X HX. rewrite <- app_assoc.
  destruct (balanced_pre_open_only (w ++ X)) as [-> ->].
  destruct (balanced_plain w Hw X) as [-> ->]. lia.
Qed.

Lemma dangling_open_pre_cut w t :
  Forall (fun c => c <> 0x3C) w -> dangling 0 t -> dangling 1 (PRE_OPEN ++ w ++ t).
Proof.
  intros Hw Ht X HX. rewrite <- !app_assoc.
  destruct (balanced_pre_open_only (w ++ t ++ X)) as [-> ->].
  destruct (balanced_plain w Hw (t ++ X)) as [-> ->].
  destruct (Ht X HX) as [-> ->]. lia.
Qed.

Lemma cut_of_tag t : In t ([] :: cut_tags) -> cut_of t 0 [] 0 t.
Proof.
  intros Ht. refine (conj eq_refl (conj balanced_nil (conj _ (or_introl eq_refl)))).
  destruct Ht as [<- | Ht]; [apply dangling_nil | now apply dangling_cut_tag].
Qed.

Lemma cut_of_open_pre w t :
  Forall (fun c => c <> 0x3C) w -> In t ([] :: cut_tags) ->
  cut_of (PRE_OPEN ++ w ++ t) 0 [] 1 (PRE_OPEN ++ w ++ t).
Proof.
  intros Hw Ht. refine (conj eq_refl (conj balanced_nil (conj _ (or_intror eq_refl)))).
  apply dangling_open_pre_cut; [exact Hw|].
  destruct Ht as [<- | Ht]; [apply dangling_nil | now apply dangling_cut_tag].
Qed.

Lemma cut_of_extend text k body opened tail k0 front :
  balanced k0 front -> cut_of text k body opened tail ->
  cut_of (front ++ text) (k0 + k) (front ++ body) opened tail.
Proof.
  intros Hfront (-> & Hbal & Hdang & Hop).
  refine (conj _ (conj _ (conj Hdang Hop))).
  - now rewrite app_assoc.
  - now apply balanced_app.
Qed.

(** Any prefix of well-formed markup can be cut in this way. *)
Lemma take_markup s : markup s -> forall n,
  exists k body opened tail, cut_of (take n s) k body opened tail.
Proof.
  induction 1 as [|c s Hc Hs IH|s Hs IH|s Hs IH|w s Hw Hs IH]; intros n.
  - rewrite take_nil. exists 0%nat, [], 0%nat, []. apply cut_of_tag. now left.
  - destruct n as [|n].
    + exists 0%nat, [], 0%nat, []. apply cut_of_tag. now left.
    + destruct (IH n) as (k & body & opened & tail & Hcut).
      exists (0 + k)%nat, ([c] ++ body), opened, tail.
      apply (cut_of_extend _ _ _ _ _ 0 [c]); [|exact Hcut].
      apply balanced_plain. now repeat constructor.
  - destruct n as [|[|[|n]]];
      try (exists 0%nat, [], 0%nat; eexists; apply cut_of_tag; cbn; tauto).
    destruct (IH n) as (k & body & opened & tail & Hcut).
    exists (0 + k)%nat, (py "<b>" ++ body), opened, tail.
    apply (cut_of_extend _ _ _ _ _ 0 (py "<b>")); [apply balanced_b | exact Hcut].
  - destruct n as [|[|[|[|n]]]];
      try (exists 0%nat, [], 0%nat; eexists; apply cut_of_tag; cbn; tauto).
    destruct (IH n) as (k & body & opened & tail & Hcut).
    exists (0 + k)%nat, (py "</b>" ++ body), opened, tail.
    apply (cut_of_extend _ _ _ _ _ 0 (py "</b>")); [apply balanced_b_close | exact Hcut].
  - destruct n as [|[|[|[|[|n]]]]];
      try (exists 0%nat, [], 0%nat; eexists; apply cut_of_tag; cbn; tauto).
    change (take (S (S (S (S (S n))))) (PRE_OPEN ++ w ++ PRE_CLOSE ++ s))
      with (PRE_OPEN ++ take n (w ++ PRE_CLOSE ++ s)).
    rewrite take_app.
    assert (Hw' : Forall (fun c => c <> 0x3C) (take n w)) by now apply Forall_take.
    destruct (n - length w)%nat as [|[|[|[|[|[|m]]]]]] eqn:Hn;
      try (exists 0%nat, [], 1%nat; eexists;
           apply (cut_of_open_pre (take n w)); [exact Hw' | cbn; tauto]).
    destruct (IH m) as (k & body & opened & tail & Hcut).
    exists (1 + k)%nat, ((PRE_OPEN ++ w ++ PRE_CLOSE) ++ body), opened, tail.
    change (take (S (S (S (S (S (S m)))))) (PRE_CLOSE ++ s)) with (PRE_CLOSE ++ take m s).
    rewrite take_ge by lia.
    replace (PRE_OPEN ++ w ++ PRE_CLOSE ++ take m s)
      with ((PRE_OPEN ++ w ++ PRE_CLOSE) ++ take m s) by now rewrite <- !app_assoc.
    apply cut_of_extend; [now apply balanced_pre | exact Hcut].
Qed.

Lemma length_telegram_cap text : (length (telegram_cap text) <= 4096)%nat.
Proof.
  unfold telegram_cap. destruct (Nat.ltb_spec 4096 (length text)) as [Hlong|Hshort].
  - assert (Hclose : length PRE_CLOSE = 6%nat) by reflexivity.
    assert (Hdots : length ELLIPSIS = 1%nat) by reflexivity.
    destruct (_ <? _)%nat; rewrite !length_app, length_take, ?Hclose, Hdots; lia.
  - exact Hshort.
Qed.

Lemma telegram_cap_balanced text :
  markup text -> count PRE_OPEN (telegram_cap text) = count PRE_CLOSE (telegram_cap text).
Proof.
  intros Hm. unfold telegram_cap. destruct (4096 <? length text)%nat.
  - destruct (take_markup text Hm (4096 - 7)) as
      (k & body & opened & tail & -> & Hbal & Hdang & Hop).
    assert (Hin0 : In [] endings) by (cbn; tauto).
    assert (Hin1 : In ELLIPSIS endings) by (cbn; tauto).
    assert (Hin2 : In (PRE_CLOSE ++ ELLIPSIS) endings) by (cbn; tauto).
    destruct (Hbal tail) as [Ho Hc].
    destruct (Hdang [] Hin0) as [Ho0 Hc0]. rewrite app_nil_r in Ho0, Hc0.
    rewrite Ho, Hc, Ho0, Hc0.
    change (count PRE_OPEN []) with 0%nat. change (count PRE_CLOSE []) with 0%nat.
    destruct Hop as [-> | ->].
    + replace (k + 0 <? k + (0 + 0))%nat with false by (symmetry; apply Nat.ltb_ge; lia).
      rewrite <- app_assoc.
      destruct (Hbal (tail ++ ELLIPSIS)) as [-> ->].
      destruct (Hdang ELLIPSIS Hin1) as [-> ->]. reflexivity.
    + replace (k + 0 <? k + (1 + 0))%nat with true by (symmetry; apply Nat.ltb_lt; lia).
      rewrite <- !app_assoc.
      destruct (Hbal (tail ++ PRE_CLOSE ++ ELLIPSIS)) as [-> ->].
      destruct (Hdang (PRE_CLOSE ++ ELLIPSIS) Hin2) as [-> ->].
      change (count PRE_OPEN (PRE_CLOSE ++ ELLIPSIS)) with 0%nat.
      change (count PRE_CLOSE (PRE_CLOSE ++ ELLIPSIS)) with 1%nat. lia.
  - destruct (markup_balanced text Hm) as [k Hbal].
    destruct (Hbal []) as [Ho Hc]. rewrite app_nil_r in Ho, Hc. now rewrite Ho, Hc.
Qed.

(** C8. The text [TelegramHandler.emit] hands to [requests.post] has at most
    4096 characters, and in it the tags [<pre>] and [</pre>] are equal in
    number, whether the text was cut or not: a [<pre>] left open by the cut
    is closed by the [</pre>] the code appends. *)
Theorem telegram_text_capped
    (format_exception : exc_info -> list pystr) (self : TelegramHandler)
    (record : log_record) :
  (length (telegram_text format_exception self record) <= 4096)%nat /\
  count (py "<pre>") (telegram_text format_exception self record) =
  count (py "</pre>") (telegram_text format_exception self record).
Proof.
  split.
  - apply length_telegram_cap.
  - apply telegram_cap_balanced, markup_telegram_full_text.
Qed.

(* ===================================================================== *)
(** * Names with increasing suffixes *)
(* ===================================================================== *)

Lemma py_inj (a b : string) : py a = py b -> a = b.
Proof.
  unfold py. intros H.
  rewrite <- (string_of_list_ascii_of_string a), <- (string_of_list_ascii_of_string b).
  f_equal. revert H. generalize (list_ascii_of_string a) (list_ascii_of_string b).
  induction l as [|x l IH]; intros [|y l']; cbn [map]; intros H;
    try discriminate; [reflexivity|].
  inversion H as [[Hxy Hl]]. f_equal; [|now apply IH].
  rewrite <- (ascii_N_embedding x), <- (ascii_N_embedding y). now rewrite Hxy.
Qed.

Lemma to_uint_nonnil (n : nat) : Nat.to_uint n <> Decimal.Nil.
Proof.
  rewrite <- (DecimalNat.Unsigned.of_to n) at 1.
  rewrite DecimalNat.Unsigned.to_of. apply DecimalFacts.unorm_nonnil.
Qed.

Lemma str_of_nat_inj (n m : nat) : str_of_nat n = str_of_nat m -> n = m.
Proof.
  unfold str_of_nat. intros H. apply py_inj in H.
  apply DecimalNat.Unsigned.to_uint_inj.
  pose proof (NilZero.usu (Nat.to_uint n) (to_uint_nonnil n)) as Un.
  pose proof (NilZero.usu (Nat.to_uint m) (to_uint_nonnil m)) as Um.
  rewrite H, Um in Un. now inversion Un.
Qed.

Lemma str_of_nat_nonempty (n : nat) : str_of_nat n <> [].
Proof.
  unfold str_of_nat. intros H.
  change (@nil N) with (py EmptyString) in H. apply py_inj in H.
  pose proof (NilZero.usu (Nat.to_uint n) (to_uint_nonnil n)) as U.
  rewrite H in U. discriminate U.
Qed.

Lemma str_in_In (x : pystr) (l : list pystr) : str_in x l = true <-> In x l.
Proof.
  unfold str_in. rewrite existsb_exists. split.
  - intros (y & Hy & Heq). apply bool_decide_eq_true in Heq. now subst.
  - intros H. exists x. split; [exact H | now apply bool_decide_eq_true].
Qed.

Module NamingFacts.

Import Naming.

Lemma numbered_inj base i k :
  (1 <= i)%nat -> (1 <= k)%nat -> numbered base i = numbered base k -> i = k.
Proof.
  intros Hi Hk. unfold numbered.
  destruct i as [|[|i]], k as [|[|k]]; try lia; intros H; try reflexivity.
  - exfalso. apply (str_of_nat_nonempty (S (S k))).
    apply (app_inv_head base). now rewrite app_nil_r.
  - exfalso. apply (str_of_nat_nonempty (S (S i))).
    apply (app_inv_head base). now rewrite app_nil_r.
  - apply app_inv_head in H. now apply str_of_nat_inj.
Qed.

Lemma map_numbered_inj base ks : forall ks',
  Forall (fun k => (1 <= k)%nat) ks -> Forall (fun k => (1 <= k)%nat) ks' ->
  map (numbered base) ks = map (numbered base) ks' -> ks = ks'.
Proof.
  induction ks as [|k ks IH]; intros [|k' ks'] Hks Hks' Heq; try discriminate;
    [reflexivity|].
  cbn [map] in Heq. inversion Heq as [[Hk Hrest]].
  f_equal.
  - apply (numbered_inj base); [exact (Forall_inv Hks) | exact (Forall_inv Hks') | exact Hk].
  - apply IH; [exact (Forall_inv_tail Hks) | exact (Forall_inv_tail Hks') | exact Hrest].
Qed.

Lemma seq_positive n : forall a, Forall (fun k => (1 <= k)%nat) (seq (S a) n).
Proof.
  induction n as [|n IH]; intros a; cbn [seq]; constructor; [lia | apply IH].
Qed.

Section MakeNameFacts.

Context (unicode_fold : pystr -> pystr).
Context (reserved : list pystr).
Context (maxLength : option nat).

Lemma is_taken_In sc name : is_taken reserved sc name = true <-> In name (all_names reserved sc).
Proof.
  unfold is_taken, all_names.
  rewrite !orb_true_iff, !str_in_In, !in_app_iff. tauto.
Qed.

(** The search stops at the first candidate that is free. *)
Lemma first_free_run taken name j : forall k fuel,
  (forall i, (k <= i < k + j)%nat -> taken (name ++ str_of_nat i) = true) ->
  taken (name ++ str_of_nat (k + j)) = false ->
  (j < fuel)%nat ->
  first_free taken name k fuel = Some (name ++ str_of_nat (k + j)).
Proof.
  induction j as [|j IH]; intros k fuel Hrun Hfree Hfuel;
    (destruct fuel as [|fuel]; [lia|]); cbn [first_free].
  - rewrite Nat.add_0_r in *. now rewrite Hfree.
  - rewrite (Hrun k) by lia.
    replace (k + S j)%nat with (S k + j)%nat in * by lia.
    apply IH; [|exact Hfree|lia]. intros i Hi. apply Hrun. lia.
Qed.

Lemma first_free_none taken name : forall fuel k,
  first_free taken name k fuel = None ->
  forall i, (k <= i < k + fuel)%nat -> taken (name ++ str_of_nat i) = true.
Proof.
  induction fuel as [|fuel IH]; intros k Hnone i Hi; [lia|].
  cbn [first_free] in Hnone.
  destruct (taken (name ++ str_of_nat k)) eqn:Hk; [|discriminate].
  destruct (Nat.eq_dec i k) as [->|Hne]; [exact Hk|].
  apply (IH (S k) Hnone). lia.
Qed.

(** The search never gives up: among one candidate more than there are
    names taken, one is free. *)
Lemma first_free_enough sc name k :
  first_free (is_taken reserved sc) name k (S (length (all_names reserved sc))) <> None.
Proof.
  intros Hnone.
  pose proof (first_free_none _ _ _ _ Hnone) as Hall.
  set (candidates := map (fun i => name ++ str_of_nat i) (seq k (S (length (all_names reserved sc))))).
  assert (Hnodup : List.NoDup candidates).
  { apply Injective_map_NoDup; [|apply seq_NoDup].
    intros a b Hab. apply app_inv_head in Hab. now apply str_of_nat_inj. }
  assert (Hincl : incl candidates (all_names reserved sc)).
  { intros c Hc. apply in_map_iff in Hc as (i & <- & Hi).
    apply in_seq in Hi. apply is_taken_In, Hall. lia. }
  pose proof (List.NoDup_incl_length Hnodup Hincl) as Hlen.
  unfold candidates in Hlen. rewrite length_map, length_seq in Hlen. lia.
Qed.

Lemma first_free_some taken name : forall fuel k c,
  first_free taken name k fuel = Some c ->
  exists j,
    c = name ++ str_of_nat (k + j) /\
    (forall i, (k <= i < k + j)%nat -> taken (name ++ str_of_nat i) = true) /\
    taken c = false.
Proof.
  induction fuel as [|fuel IH]; intros k c Hsome; [discriminate|].
  cbn [first_free] in Hsome.
  destruct (taken (name ++ str_of_nat k)) eqn:Hk.
  - destruct (IH (S k) c Hsome) as (j & -> & Hrun & Hfree).
    exists (S j). replace (k + S j)%nat with (S k + j)%nat by lia.
    split; [reflexivity|]. split; [|exact Hfree].
    intros i Hi. destruct (Nat.eq_dec i k) as [->|Hne]; [exact Hk|].
    apply Hrun. lia.
  - inversion Hsome; subst. exists 0%nat. rewrite Nat.add_0_r.
    split; [reflexivity|]. split; [|exact Hk]. intros i Hi. lia.
Qed.

Lemma is_taken_add_pending name sc x :
  is_taken reserved (add_pending name sc) x = true <->
  x = name \/ is_taken reserved sc x = true.
Proof.
  rewrite !is_taken_In. unfold all_names, add_pending. cbn [stored pending].
  rewrite !in_app_iff. cbn [In]. intuition congruence.
Qed.

(** [makeName] returns the first name of the family [base], [base2],
    [base3], ... that is free, whatever the scope holds. *)
Lemma makeName_least sc title base :
  normalize unicode_fold title maxLength = base ->
  base <> [] ->
  exists k,
    (1 <= k)%nat /\
    makeName unicode_fold title sc reserved maxLength false = Ok (numbered base k) /\
    (forall i, (1 <= i < k)%nat -> is_taken reserved sc (numbered base i) = true) /\
    is_taken reserved sc (numbered base k) = false.
Proof.
  intros Hnorm Hbase. unfold makeName. rewrite Hnorm.
  rewrite (bool_decide_eq_false_2 _ Hbase). cbn [andb].
  destruct (is_taken reserved sc base) eqn:Htaken.
  - destruct (first_free _ base 2 _) as [c|] eqn:Hsearch.
    + apply first_free_some in Hsearch as (j & -> & Hrun & Hfree).
      exists (2 + j)%nat.
      split; [lia|]. split; [reflexivity|]. split; [|exact Hfree].
      intros i Hi. destruct i as [|[|i]]; [lia|exact Htaken|].
      apply (Hrun (S (S i))). lia.
    + exfalso. exact (first_free_enough sc base 2 Hsearch).
  - exists 1%nat.
    split; [lia|]. split; [reflexivity|]. split; [|exact Htaken].
    intros i Hi. lia.
Qed.

(** In any scope the suffixes of the names given to colliding titles go up:
    every new name has a number above [low], up to which all are taken. *)
Lemma create_all_increasing base titles : forall sc low,
  base <> [] ->
  Forall (fun t => normalize unicode_fold t maxLength = base) titles ->
  (forall i, (1 <= i <= low)%nat -> is_taken reserved sc (numbered base i) = true) ->
  exists ks sc',
    create_all unicode_fold titles sc reserved maxLength = Ok (map (numbered base) ks, sc') /\
    length ks = length titles /\
    StronglySorted lt ks /\
    Forall (fun k => (low < k)%nat) ks.
Proof.
  induction titles as [|title titles IH]; intros sc low Hbase Htitles Hlow.
  - exists [], sc. split; [reflexivity|]. split; [reflexivity|]. split; constructor.
  - pose proof (Forall_inv Htitles) as Htitle. cbn beta in Htitle.
    pose proof (Forall_inv_tail Htitles) as Hrest.
    destruct (makeName_least sc title base Htitle Hbase) as (k & Hk & Hname & Hbelow & Hfree).
    assert (Hlt : (low < k)%nat).
    { destruct (Nat.lt_ge_cases low k) as [H|H]; [exact H|].
      rewrite (Hlow k) in Hfree by lia. discriminate. }
    destruct (IH (add_pending (numbered base k) sc) k Hbase Hrest) as
      (ks & sc' & Hrun & Hlen & Hsorted & Habove).
    { intros i Hi. apply is_taken_add_pending.
      destruct (Nat.eq_dec i k) as [->|Hne]; [now left | right; apply Hbelow; lia]. }
    exists (k :: ks), sc'. split; [|split; [|split]].
    + cbn [create_all]. unfold create. rewrite Hname. cbn [rbind].
      fold (add_pending (numbered base k) sc).
      now rewrite Hrun.
    + cbn [length]. now rewrite Hlen.
    + constructor; [exact Hsorted|]. exact Habove.
    + constructor; [exact Hlt|].
      eapply Forall_impl; [exact Habove|]. cbn. intros; lia.
Qed.

(** In a scope where the whole family is free, the names are [base],
    [base2], [base3], ... in this order; [used] of them are taken already. *)
Lemma create_all_numbered base titles : forall sc used,
  base <> [] ->
  Forall (fun t => normalize unicode_fold t maxLength = base) titles ->
  (forall i, (1 <= i <= used)%nat -> is_taken reserved sc (numbered base i) = true) ->
  (forall i, (used < i)%nat -> is_taken reserved sc (numbered base i) = false) ->
  exists sc',
    create_all unicode_fold titles sc reserved maxLength =
    Ok (map (numbered base) (seq (S used) (length titles)), sc').
Proof.
  induction titles as [|title titles IH]; intros sc used Hbase Htitles Hused Hfree.
  - exists sc. reflexivity.
  - pose proof (Forall_inv Htitles) as Htitle. cbn beta in Htitle.
    pose proof (Forall_inv_tail Htitles) as Hrest.
    destruct (makeName_least sc title base Htitle Hbase) as (k & Hk & Hname & Hbelow & Hkfree).
    assert (k = S used) as ->.
    { destruct (Nat.lt_trichotomy k (S used)) as [H|[H|H]]; [|exact H|].
      - rewrite (Hused k) in Hkfree by lia. discriminate.
      - pose proof (Hbelow (S used) ltac:(lia)) as Hyes.
        pose proof (Hfree (S used) ltac:(lia)) as Hno. congruence. }
    destruct (IH (add_pending (numbered base (S used)) sc) (S used) Hbase Hrest)
      as (sc' & Hrun).
    { intros i Hi. apply is_taken_add_pending.
      destruct (Nat.eq_dec i (S used)) as [->|Hne]; [now left | right; apply Hused; lia]. }
    { intros i Hi.
      destruct (is_taken reserved (add_pending _ sc) _) eqn:E; [|reflexivity].
      apply is_taken_add_pending in E as [E|E].
      - apply numbered_inj in E; lia.
      - rewrite Hfree in E by lia. discriminate. }
    exists sc'. cbn [create_all]. unfold create. rewrite Hname. cbn [rbind].
    fold (add_pending (numbered base (S used)) sc).
    rewrite Hrun. reflexivity.
Qed.

End MakeNameFacts.

(** C1. Entities created one after the other with titles that normalize to
    the same non-empty name [base] are named, in every scope and whatever is
    reserved, by members [base], [base2], [base3], ... of one family whose
    numbers go strictly up; and in a scope where none of the family is
    taken, the first is [base], the second [base2], the third [base3] and
    so on, the first suffix being 2. *)
Theorem makeName_increasing_suffixes
    (unicode_fold : pystr -> pystr) (reserved : list pystr) (maxLength : option nat)
    (sc : scope) (base : pystr) (titles : list pystr) :
  base <> [] ->
  Forall (fun t => normalize unicode_fold t maxLength = base) titles ->
  exists ks sc',
    create_all unicode_fold titles sc reserved maxLength = Ok (map (numbered base) ks, sc') /\
    length ks = length titles /\
    StronglySorted lt ks /\
    Forall (fun k => (1 <= k)%nat) ks /\
    ((forall i, (1 <= i)%nat -> is_taken reserved sc (numbered base i) = false) ->
     ks = seq 1 (length titles)).
Proof.
  intros Hbase Htitles.
  destruct (create_all_increasing unicode_fold reserved maxLength base titles sc 0
              Hbase Htitles) as (ks & sc' & Hrun & Hlen & Hsorted & Habove).
  { intros i Hi. lia. }
  exists ks, sc'. split; [exact Hrun|]. split; [exact Hlen|]. split; [exact Hsorted|].
  split; [exact Habove|].
  intros Hfresh.
  destruct (create_all_numbered unicode_fold reserved maxLength base titles sc 0
              Hbase Htitles) as (sc'' & Hrun').
  { intros i Hi. lia. }
  { intros i Hi. apply Hfresh. lia. }
  rewrite Hrun in Hrun'. inversion Hrun' as [[Hnames Hsc]].
  apply (map_numbered_inj base); [exact Habove | apply seq_positive | exact Hnames].
Qed.

Lemma makeName_increasing_suffixes_witness :
  exists ks sc',
    create_all (fun t => t) [py "Hello"; py "Hello"; py "Hello"] empty_scope [] None =
      Ok (map (numbered (py "hello")) ks, sc') /\
    length ks = 3%nat /\
    StronglySorted lt ks /\
    Forall (fun k => (1 <= k)%nat) ks /\
    ((forall i, (1 <= i)%nat -> is_taken [] empty_scope (numbered (py "hello") i) = false) ->
     ks = [1; 2; 3]%nat).
Proof.
  apply (makeName_increasing_suffixes (fun t => t) [] None empty_scope (py "hello")
           [py "Hello"; py "Hello"; py "Hello"]).
  - discriminate.
  - repeat constructor.
Defined.

(** The example of the specification: three entities titled "Hello" in an
    empty scope. *)
Example hello_hello2_hello3 :
  create_all (fun t => t) [py "Hello"; py "Hello"; py "Hello"] empty_scope [] None =
  Ok ([py "hello"; py "hello2"; py "hello3"],
      {| stored := []; pending := [py "hello3"; py "hello2"; py "hello"] |}).
Proof. vm_compute. reflexivity. Qed.

(** A name that is reserved is passed over like one that is taken. *)
Example reserved_new_new2 :
  makeName (fun t => t) (py "New") empty_scope [py "new"; py "new2"] None false =
  Ok (py "new3").
Proof. vm_compute. reflexivity. Qed.

End NamingFacts.

(* ===================================================================== *)
(** * Round trips of the identifiers *)
(* ===================================================================== *)

Module UrlIdFacts.

Import UrlId.

(** ** Digits *)

Lemma value_of_snoc b ds d : value_of b (ds ++ [d]) = value_of b ds * b + d.
Proof. unfold value_of. now rewrite fold_left_app. Qed.

Lemma value_digits_fixed b w : forall n,
  0 < b -> n < b ^ N.of_nat w -> value_of b (digits_fixed b w n) = n.
Proof.
  induction w as [|w IH]; intros n Hb Hn.
  - cbn in *. lia.
  - cbn [digits_fixed]. rewrite value_of_snoc, IH; [|exact Hb|].
    + rewrite N.mul_comm. symmetry. apply N.div_mod. lia.
    + rewrite Nat2N.inj_succ, N.pow_succ_r' in Hn.
      apply N.Div0.div_lt_upper_bound. exact Hn.
Qed.

Lemma length_digits_fixed b w n : length (digits_fixed b w n) = w.
Proof.
  revert n. induction w as [|w IH]; intros n; [reflexivity|].
  cbn [digits_fixed]. rewrite length_app, IH. cbn. lia.
Qed.

Lemma digits_fixed_bound b w n :
  0 < b -> Forall (fun d => d < b) (digits_fixed b w n).
Proof.
  intros Hb. revert n. induction w as [|w IH]; intros n; [constructor|].
  cbn [digits_fixed]. apply Forall_app. split; [apply IH|].
  repeat constructor. apply N.mod_lt. lia.
Qed.

Lemma value_digits_upto b fuel : forall n,
  0 < b -> n < b ^ N.of_nat fuel -> value_of b (digits_upto b fuel n) = n.
Proof.
  induction fuel as [|fuel IH]; intros n Hb Hn.
  - cbn in *. lia.
  - cbn [digits_upto]. destruct (N.eqb_spec n 0) as [->|Hn0]; [reflexivity|].
    rewrite value_of_snoc, IH; [|exact Hb|].
    + rewrite N.mul_comm. symmetry. apply N.div_mod. lia.
    + rewrite Nat2N.inj_succ, N.pow_succ_r' in Hn.
      apply N.Div0.div_lt_upper_bound. exact Hn.
Qed.

Lemma digits_upto_bound b fuel n :
  0 < b -> Forall (fun d => d < b) (digits_upto b fuel n).
Proof.
  intros Hb. revert n. induction fuel as [|fuel IH]; intros n; [constructor|].
  cbn [digits_upto]. destruct (n =? 0); [constructor|].
  apply Forall_app. split; [apply IH|].
  repeat constructor. apply N.mod_lt. lia.
Qed.

(** The first digit is not zero. *)
Lemma digits_upto_head b fuel : forall n,
  1 < b -> n <> 0 -> n < b ^ N.of_nat fuel ->
  exists d rest, digits_upto b fuel n = d :: rest /\ d <> 0.
Proof.
  induction fuel as [|fuel IH]; intros n Hb Hn0 Hn.
  - cbn in Hn. lia.
  - cbn [digits_upto]. destruct (N.eqb_spec n 0) as [->|_]; [contradiction|].
    destruct (N.eq_dec (n / b) 0) as [Hq|Hq].
    + rewrite Hq. assert (digits_upto b fuel 0 = []) as ->.
      { destruct fuel; reflexivity. }
      exists (n mod b), []. split; [reflexivity|].
      apply N.div_small_iff in Hq; [|lia]. rewrite N.mod_small; assumption.
    + destruct (IH (n / b)) as (d & rest & -> & Hd); [exact Hb|exact Hq| |].
      * rewrite Nat2N.inj_succ, N.pow_succ_r' in Hn.
        apply N.Div0.div_lt_upper_bound. exact Hn.
      * exists d, (rest ++ [n mod b]). split; [reflexivity | exact Hd].
Qed.

Lemma size_bound b n : 1 < b -> n < b ^ N.of_nat (N.to_nat (N.size n)).
Proof.
  intros Hb. rewrite N2Nat.id.
  apply N.lt_le_trans with (2 ^ N.size n); [apply N.size_gt|].
  apply N.pow_le_mono_l. lia.
Qed.

Lemma value_digits_of b n : 1 < b -> value_of b (digits_of b n) = n.
Proof.
  intros Hb. apply value_digits_upto; [lia | now apply size_bound].
Qed.

(** ** Alphabets *)

Lemma below_checked (P : N -> bool) (k : nat) :
  forallb (fun i => P (N.of_nat i)) (seq 0 k) = true ->
  forall d, d < N.of_nat k -> P d = true.
Proof.
  intros Hall d Hd. rewrite forallb_forall in Hall.
  rewrite <- (N2Nat.id d). apply Hall, in_seq. lia.
Qed.

Lemma decode_encode_digits alphabet b ds :
  (forall d, d < b -> decodes alphabet d = true) ->
  Forall (fun d => d < b) ds ->
  decode_digits (fun c => index_of c alphabet) (encode_digits alphabet ds) = Some ds.
Proof.
  intros Hdec. induction 1 as [|d ds Hd Hds IH]; [reflexivity|].
  cbn [encode_digits map decode_digits]. fold (encode_digits alphabet ds).
  rewrite IH. specialize (Hdec d Hd). unfold decodes in Hdec.
  destruct (index_of _ alphabet) as [d'|]; [|discriminate].
  apply N.eqb_eq in Hdec. now subst.
Qed.

Lemma base58_decodes d : d < 58 -> decodes base58_alphabet d = true.
Proof. apply (below_checked (decodes base58_alphabet) 58). vm_compute. reflexivity. Qed.

Lemma base64_decodes d : d < 64 -> decodes base64_alphabet d = true.
Proof. apply (below_checked (decodes base64_alphabet) 64). vm_compute. reflexivity. Qed.

Lemma hex_value_digit d : d < 16 -> hex_value (hex_digit d) = Some d.
Proof.
  intros Hd.
  apply (below_checked hex_decodes 16) in Hd; [|vm_compute; reflexivity].
  unfold hex_decodes in Hd. destruct (hex_value (hex_digit d)); [|discriminate].
  apply N.eqb_eq in Hd. now subst.
Qed.

Lemma hex_digit_not_hyphen d : d < 16 -> (hex_digit d =? HYPHEN) = false.
Proof.
  intros Hd.
  apply (below_checked (fun d => negb (hex_digit d =? HYPHEN)) 16) in Hd;
    [|vm_compute; reflexivity].
  now apply negb_true_iff in Hd.
Qed.

Lemma hex_fixed_digits w n : hex_fixed w n = map hex_digit (digits_fixed 16 w n).
Proof.
  revert n. induction w as [|w IH]; intros n; [reflexivity|].
  cbn [hex_fixed digits_fixed]. now rewrite map_app, IH.
Qed.

Lemma decode_hex_digits ds :
  Forall (fun d => d < 16) ds -> decode_digits hex_value (map hex_digit ds) = Some ds.
Proof.
  induction 1 as [|d ds Hd Hds IH]; [reflexivity|].
  cbn [map decode_digits]. now rewrite IH, hex_value_digit.
Qed.

Lemma leading_run_hex ds rest :
  Forall (fun d => d < 16) ds ->
  leading_run hex_value (map hex_digit ds ++ HYPHEN :: rest) = ds.
Proof.
  induction 1 as [|d ds Hd Hds IH]; [reflexivity|].
  cbn [map app leading_run]. now rewrite hex_value_digit, IH.
Qed.

(** ** Texts *)

Lemma take_while_app p s c rest :
  Forall (fun x => p x = true) s -> p c = false ->
  take_while p (s ++ c :: rest) = s.
Proof.
  intros Hs Hc. induction Hs as [|x s Hx Hs IH]; cbn [app take_while].
  - now rewrite Hc.
  - now rewrite Hx, IH.
Qed.

Lemma take_while_all p s : Forall (fun x => p x = true) s -> take_while p s = s.
Proof.
  induction 1 as [|x s Hx Hs IH]; [reflexivity|].
  cbn [take_while]. now rewrite Hx, IH.
Qed.

Lemma filter_all (p : N -> bool) s :
  Forall (fun x => p x = true) s -> List.filter p s = s.
Proof.
  induction 1 as [|x s Hx Hs IH]; [reflexivity|].
  cbn [List.filter]. now rewrite Hx, IH.
Qed.

Lemma after_last_hyphen_app name key :
  Forall (fun c => negb (c =? HYPHEN) = true) key ->
  after_last_hyphen (name ++ py "-" ++ key) = key.
Proof.
  intros Hkey. unfold after_last_hyphen.
  change (py "-" ++ key) with ([HYPHEN] ++ key).
  rewrite !rev_app_distr, <- app_assoc. cbn [rev app].
  rewrite take_while_app; [apply rev_involutive| |reflexivity].
  now apply List.Forall_rev.
Qed.

Lemma unpy_py s : unpy (py s) = s.
Proof.
  unfold unpy, py. rewrite map_map.
  rewrite (map_ext _ (fun a => a)) by apply ascii_N_embedding.
  rewrite map_id. apply string_of_list_ascii_of_string.
Qed.

(** ** Integer keys *)

Lemma N_to_uint_nonnil (n : N) : N.to_uint n <> Decimal.Nil.
Proof.
  rewrite <- (DecimalN.Unsigned.of_to n) at 1.
  rewrite DecimalN.Unsigned.to_of. apply DecimalFacts.unorm_nonnil.
Qed.

Lemma url_id_int_uint id : url_id_int id = py (NilZero.string_of_uint (N.to_uint id)).
Proof. now destruct id. Qed.

Lemma string_of_uint_digits d :
  Forall (fun c => ascii_digit c = true) (py (NilEmpty.string_of_uint d)).
Proof. induction d; cbn; constructor; try reflexivity; assumption. Qed.

Lemma NilZero_string_of_uint_digits d :
  Forall (fun c => ascii_digit c = true) (py (NilZero.string_of_uint d)).
Proof.
  destruct d; try apply string_of_uint_digits. repeat constructor.
Qed.

Lemma url_id_name_int_round_trip id name :
  parse_url_id_name_int (url_id_name_int id name) = Some id.
Proof.
  unfold parse_url_id_name_int, url_id_name_int. rewrite url_id_int_uint.
  change (py "-" ++ name) with (HYPHEN :: name).
  rewrite take_while_app; [|apply NilZero_string_of_uint_digits|reflexivity].
  rewrite unpy_py, (NilZero.usu _ (N_to_uint_nonnil id)).
  now rewrite DecimalN.Unsigned.of_to.
Qed.

(** ** UUID keys in hexadecimal *)

Lemma uuid_value u : is_uuid u -> value_of 16 (digits_fixed 16 32 u) = u.
Proof. intros Hu. apply value_digits_fixed; [lia | exact Hu]. Qed.

Lemma url_id_name_uuid_round_trip u name :
  is_uuid u -> parse_url_id_name_uuid (url_id_name_uuid u name) = Some u.
Proof.
  intros Hu. unfold parse_url_id_name_uuid, url_id_name_uuid, uuid_hex.
  rewrite hex_fixed_digits. change (py "-" ++ name) with (HYPHEN :: name).
  rewrite leading_run_hex by (apply digits_fixed_bound; lia).
  rewrite length_digits_fixed, bool_decide_eq_true_2 by reflexivity.
  now rewrite uuid_value.
Qed.

Lemma hex_no_hyphen w n :
  Forall (fun c => negb (c =? HYPHEN) = true) (hex_fixed w n).
Proof.
  rewrite hex_fixed_digits. apply Forall_map.
  eapply Forall_impl; [apply (digits_fixed_bound 16 w n); lia|].
  intros d Hd. cbn beta. now rewrite hex_digit_not_hyphen.
Qed.

Lemma parse_url_id_uuid_hex u : is_uuid u -> parse_url_id_uuid (uuid_hex u) = Some u.
Proof.
  intros Hu. unfold parse_url_id_uuid, uuid_hex.
  rewrite filter_all by apply hex_no_hyphen.
  rewrite hex_fixed_digits, decode_hex_digits by (apply digits_fixed_bound; lia).
  rewrite length_digits_fixed, bool_decide_eq_true_2 by reflexivity.
  now rewrite uuid_value.
Qed.

Lemma groups_of_a_uuid (h : pystr) :
  take 8 h ++ take 4 (drop 8 h) ++ take 4 (drop 12 h) ++ take 4 (drop 16 h) ++ drop 20 h = h.
Proof.
  replace (drop 20 h) with (drop 4 (drop 16 h)) by now rewrite drop_drop.
  rewrite (take_drop 4 (drop 16 h)).
  replace (drop 16 h) with (drop 4 (drop 12 h)) by now rewrite drop_drop.
  rewrite (take_drop 4 (drop 12 h)).
  replace (drop 12 h) with (drop 4 (drop 8 h)) by now rewrite drop_drop.
  rewrite (take_drop 4 (drop 8 h)). apply take_drop.
Qed.

Lemma filter_hyphens_dashed u :
  List.filter (fun c => negb (c =? HYPHEN)) (uuid_dashed u) = uuid_hex u.
Proof.
  unfold uuid_dashed.
  pose proof (hex_no_hyphen 32 u) as Hh. fold (uuid_hex u) in Hh.
  revert Hh. generalize (uuid_hex u). intros h Hh.
  rewrite !List.filter_app.
  change (List.filter _ (py "-")) with (@nil N). cbn [app].
  rewrite !filter_all by (try apply Forall_take; try apply Forall_drop; exact Hh).
  apply groups_of_a_uuid.
Qed.

Lemma parse_url_id_uuid_same_digits s t :
  List.filter (fun c => negb (c =? HYPHEN)) s = List.filter (fun c => negb (c =? HYPHEN)) t ->
  parse_url_id_uuid s = parse_url_id_uuid t.
Proof. unfold parse_url_id_uuid. now intros ->. Qed.

Lemma parse_url_id_uuid_dashed u : is_uuid u -> parse_url_id_uuid (uuid_dashed u) = Some u.
Proof.
  intros Hu. rewrite <- (parse_url_id_uuid_hex u Hu).
  apply parse_url_id_uuid_same_digits.
  rewrite filter_hyphens_dashed. symmetry. apply filter_all, hex_no_hyphen.
Qed.

(** ** The compact encodings *)

Lemma byte_length_uuid u : is_uuid u -> (byte_length u <= 16)%nat.
Proof.
  unfold is_uuid, byte_length. intros Hu.
  assert (Hsize : N.size u <= 128).
  { destruct (N.eq_dec u 0) as [->|Hu0]; [cbn; lia|].
    rewrite N.size_log2 by exact Hu0.
    apply N.le_succ_l, N.log2_lt_pow2; lia. }
  assert ((N.size u + 7) / 8 <= 16); [|lia].
  apply N.lt_succ_r, N.Div0.div_lt_upper_bound. lia.
Qed.

Lemma base58_not_a_one d :
  d <> 0 -> d < 58 -> (0x31 =? nth (N.to_nat d) base58_alphabet 0) = false.
Proof.
  intros Hd0 Hd.
  apply (below_checked not_a_one 58) in Hd; [|vm_compute; reflexivity].
  unfold not_a_one in Hd. apply orb_true_iff in Hd as [Hd|Hd].
  - apply N.eqb_eq in Hd. contradiction.
  - now apply negb_true_iff in Hd.
Qed.

Lemma base58_no_hyphen ds :
  Forall (fun d => d < 58) ds ->
  Forall (fun c => negb (c =? HYPHEN) = true) (encode_digits base58_alphabet ds).
Proof.
  intros Hds. apply Forall_map. eapply Forall_impl; [exact Hds|].
  intros d Hd. cbn beta.
  now apply (below_checked not_a_hyphen 58) in Hd; [|vm_compute; reflexivity].
Qed.

Lemma Forall_repeat_true (p : N -> bool) c z :
  p c = true -> Forall (fun x => p x = true) (repeat c z).
Proof. intros Hc. induction z; cbn; constructor; assumption. Qed.

Lemma take_while_ones z encoded :
  (encoded = [] \/ exists c rest, encoded = c :: rest /\ (0x31 =? c) = false) ->
  take_while (N.eqb 0x31) (repeat 0x31 z ++ encoded) = repeat 0x31 z.
Proof.
  intros [-> | (c & rest & -> & Hc)].
  - rewrite app_nil_r. now apply take_while_all, Forall_repeat_true.
  - apply take_while_app; [now apply Forall_repeat_true | exact Hc].
Qed.

Lemma uuid_base58_round_trip u :
  is_uuid u -> uuid_from_base58 (uuid_to_base58 u) = Some u.
Proof.
  intros Hu. unfold uuid_from_base58, uuid_to_base58.
  pose proof (digits_upto_bound 58 (N.to_nat (N.size u)) u ltac:(lia)) as Hbound.
  fold (digits_of 58 u) in Hbound.
  rewrite take_while_ones.
  - rewrite repeat_length, <- (repeat_length 0x31 (16 - byte_length u)) at 1.
    rewrite drop_app_length, repeat_length.
    rewrite (decode_encode_digits base58_alphabet 58) by
      (first [exact base58_decodes | exact Hbound]).
    rewrite value_digits_of by lia.
    pose proof (byte_length_uuid u Hu).
    rewrite bool_decide_eq_true_2 by lia. reflexivity.
  - destruct (N.eq_dec u 0) as [->|Hu0]; [now left | right].
    destruct (digits_upto_head 58 (N.to_nat (N.size u)) u) as (d & rest & Hdigits & Hd);
      [lia | exact Hu0 | apply size_bound; lia |].
    fold (digits_of 58 u) in Hdigits. rewrite Hdigits in *.
    exists (nth (N.to_nat d) base58_alphabet 0), (encode_digits base58_alphabet rest).
    split; [reflexivity|]. apply base58_not_a_one; [exact Hd|].
    now inversion Hbound.
Qed.

Lemma url_name_uuid_b58_round_trip u name :
  is_uuid u -> parse_url_name_uuid_b58 (url_name_uuid_b58 u name) = Some u.
Proof.
  intros Hu. unfold parse_url_name_uuid_b58, url_name_uuid_b58.
  rewrite after_last_hyphen_app; [now apply uuid_base58_round_trip|].
  unfold uuid_to_base58. apply Forall_app. split.
  - now apply Forall_repeat_true.
  - apply base58_no_hyphen, digits_upto_bound. lia.
Qed.

Lemma uuid_base64_round_trip u :
  is_uuid u -> uuid_from_base64 (uuid_to_base64 u) = Some u.
Proof.
  intros Hu. unfold uuid_from_base64, uuid_to_base64.
  rewrite (decode_encode_digits base64_alphabet 64) by
    (first [exact base64_decodes | apply digits_fixed_bound; lia]).
  rewrite length_digits_fixed, bool_decide_eq_true_2 by reflexivity.
  rewrite value_digits_fixed; [|lia|].
  - now rewrite N.div_mul by lia.
  - unfold is_uuid in Hu. change (64 ^ N.of_nat 22) with (2 ^ 128 * 16). lia.
Qed.

(** C9. Parsing what an entity renders gives back its primary key: the
    compound identifier [<id>-<name>] of an entity with an integer key and
    of one with a UUID key, which is written in 32 hexadecimal digits; the
    key alone in hexadecimal and in the dashed form; the compound identifier
    with the compact base58 key, [<name>-<key>]; and the compact base64
    key. *)
Theorem compound_identifier_round_trip :
  (forall (id : N) (name : pystr),
     parse_url_id_name_int (url_id_name_int id name) = Some id) /\
  (forall (u : N) (name : pystr),
     is_uuid u ->
     parse_url_id_name_uuid (url_id_name_uuid u name) = Some u /\
     parse_url_id_uuid (uuid_hex u) = Some u /\
     parse_url_id_uuid (uuid_dashed u) = Some u /\
     parse_url_name_uuid_b58 (url_name_uuid_b58 u name) = Some u /\
     uuid_from_base64 (uuid_to_base64 u) = Some u).
Proof.
  split.
  - apply url_id_name_int_round_trip.
  - intros u name Hu.
    split; [now apply url_id_name_uuid_round_trip|].
    split; [now apply parse_url_id_uuid_hex|].
    split; [now apply parse_url_id_uuid_dashed|].
    split; [now apply url_name_uuid_b58_round_trip|].
    now apply uuid_base64_round_trip.
Qed.

Lemma compound_identifier_round_trip_witness :
  is_uuid test_uuid /\
  parse_url_id_name_int (url_id_name_int 42 (py "report")) = Some 42 /\
  parse_url_id_name_uuid (url_id_name_uuid test_uuid (py "test")) = Some test_uuid /\
  parse_url_id_uuid (uuid_dashed test_uuid) = Some test_uuid /\
  parse_url_name_uuid_b58 (url_name_uuid_b58 test_uuid (py "test")) = Some test_uuid /\
  uuid_from_base64 (uuid_to_base64 test_uuid) = Some test_uuid.
Proof.
  assert (Hu : is_uuid test_uuid) by reflexivity.
  destruct compound_identifier_round_trip as [Hint Huuid].
  destruct (Huuid test_uuid (py "test") Hu) as (H1 & _ & H3 & H4 & H5).
  split; [exact Hu|]. split; [apply Hint|].
  split; [exact H1|]. split; [exact H3|]. split; [exact H4 | exact H5].
Defined.

(** The identifiers of the tests. *)
Example test_identifiers :
  url_id_name_int 42 (py "report") = py "42-report" /\
  url_id_name_uuid test_uuid (py "test") = py "74d588574a7611e78c27c38403d0935c-test" /\
  uuid_dashed test_uuid = py "74d58857-4a76-11e7-8c27-c38403d0935c" /\
  url_name_uuid_b58 test_uuid (py "test") = py "test-FRn1p6EnzbhydnssMnHqFZ" /\
  uuid_to_base64 test_uuid = py "dNWIV0p2EeeMJ8OEA9CTXA".
Proof. vm_compute. repeat split. Qed.

(** A malformed key is no match. *)
Example garbage_is_no_key :
  parse_url_id_uuid (py "garbage!") = None /\
  parse_url_id_name_uuid (py "garbage!") = None /\
  parse_url_id_name_int (py "garbage!") = None /\
  uuid_from_base58 (py "garbage!") = None /\
  uuid_from_base64 (py "garbage!") = None.
Proof. vm_compute. repeat split. Qed.

End UrlIdFacts.

(* ===================================================================== *)
(** * More on the two regular expressions *)
(* ===================================================================== *)

Lemma ci_startswith_iff kw s :
  ci_startswith kw s = true <-> exists v post, s = v ++ post /\ ci_equal kw v.
Proof.
  revert s. induction kw as [|p kw IH]; intros s.
  - split; [|reflexivity]. intros _. exists [], s. split; [reflexivity|constructor].
  - destruct s as [|c s]; cbn [ci_startswith].
    + split; [discriminate|]. intros (v & post & Heq & Hv).
      inversion Hv; subst. discriminate.
    + rewrite andb_true_iff, IH. split.
      * intros (Hc & v & post & -> & Hv). exists (c :: v), post.
        split; [reflexivity | now constructor].
      * intros (v & post & Heq & Hv). inversion Hv as [|? c' ? v' Hc Hv']; subst.
        inversion Heq; subst. split; [exact Hc|]. now exists v', post.
Qed.

(** X1. [_filter_re.search(key)] finds something exactly when one of the
    fifteen keywords stands somewhere in the key, in any mix of cases. *)
Theorem filter_re_search_iff (key : pystr) :
  filter_re_search key = true <->
  exists pre v post kw,
    key = pre ++ v ++ post /\ In kw filter_keywords /\ ci_equal kw v.
Proof.
  induction key as [|c key IH].
  - cbn [filter_re_search]. rewrite orb_false_r, existsb_exists. split.
    + intros (kw & Hkw & Hstart). apply ci_startswith_iff in Hstart as (v & post & Heq & Hv).
      exists [], v, post, kw. now repeat split.
    + intros (pre & v & post & kw & Heq & Hkw & Hv).
      destruct pre; [|discriminate]. exists kw. split; [exact Hkw|].
      apply ci_startswith_iff. now exists v, post.
  - cbn [filter_re_search]. rewrite orb_true_iff, existsb_exists, IH. split.
    + intros [(kw & Hkw & Hstart) | (pre & v & post & kw & -> & Hkw & Hv)].
      * apply ci_startswith_iff in Hstart as (v & post & Heq & Hv).
        exists [], v, post, kw. now repeat split.
      * exists (c :: pre), v, post, kw. now repeat split.
    + intros (pre & v & post & kw & Heq & Hkw & Hv). destruct pre as [|c' pre].
      * left. exists kw. split; [exact Hkw|]. apply ci_startswith_iff. now exists v, post.
      * right. inversion Heq; subst. now exists pre, v, post, kw.
Qed.

Section CardFacts.

Context (udb : unicode_db).

Lemma is_sep_not_digit c : is_sep c = true -> is_digit udb c = false.
Proof.
  unfold is_sep. intros H. apply orb_true_iff in H as [H|H];
    apply N.eqb_eq in H; now subst.
Qed.

Lemma digit_count_cons c s : (digit_count udb s <= digit_count udb (c :: s))%nat.
Proof. unfold digit_count. cbn [List.filter]. destruct (is_digit udb c); cbn; lia. Qed.

Lemma digit_count_digit c s :
  is_digit udb c = true -> digit_count udb (c :: s) = S (digit_count udb s).
Proof. unfold digit_count. cbn [List.filter]. now intros ->. Qed.

(** The lazy loop only passes over separators before it hands over. *)
Lemma lazy_seps_digits (K : nat) next p r : forall taken n,
  (forall q r' m, (length r' <= length r)%nat -> next q r' = Some m ->
                  (K <= digit_count udb r')%nat) ->
  lazy_seps next p r taken = Some n -> (K <= digit_count udb r)%nat.
Proof.
  revert p. induction r as [|sp r IH]; intros p taken n Hnext; cbn [lazy_seps].
  - destruct (next (Some p) []) eqn:E; [|discriminate].
    intros _. now apply (Hnext (Some p) [] n0).
  - destruct (next (Some p) (sp :: r)) eqn:E.
    + intros _. now apply (Hnext (Some p) (sp :: r) n0).
    + destruct (is_sep sp); [|discriminate]. intros H.
      apply Nat.le_trans with (digit_count udb r); [|apply digit_count_cons].
      apply (IH sp (S taken) n); [|exact H].
      intros q r' m Hlen. apply Hnext. cbn [length]. lia.
Qed.

(** Every repetition of the group takes one digit: where the matcher
    succeeds after [count] repetitions, the text has the digits for the
    thirteen it needs. *)
Lemma card_until_digits : forall k s prev count n,
  (length s <= k)%nat ->
  card_until udb prev s count = Some n -> (13 <= count + digit_count udb s)%nat.
Proof.
  induction k as [|k IH]; intros s prev count n Hlen;
    (destruct s as [|c rest]; [|cbn [length] in Hlen]); try lia; cbn [card_until].
  - destruct (Nat.leb_spec 13 count); cbn [andb]; [lia | discriminate].
  - destruct (Nat.leb_spec 13 count); cbn [andb]; [lia | discriminate].
  - assert (Hclosing :
      (if (13 <=? count)%nat && word_boundary udb prev (head (c :: rest))
       then Some 0%nat else None) = Some n -> (13 <= count + digit_count udb (c :: rest))%nat).
    { destruct (Nat.leb_spec 13 count); cbn [andb]; [lia | discriminate]. }
    destruct (is_digit udb c && (count <? 16)%nat) eqn:Hd; [|exact Hclosing].
    apply andb_true_iff in Hd as [Hd _].
    destruct (lazy_seps _ c rest 0) as [m|] eqn:Hlazy; [|exact Hclosing].
    intros _. rewrite (digit_count_digit c rest Hd).
    enough (13 <= S count + digit_count udb rest)%nat by lia.
    assert (H : (13 - S count <= digit_count udb rest)%nat); [|lia].
    apply (lazy_seps_digits (13 - S count)
             (fun p r => card_until udb p r (S count)) c rest 0 m); [|exact Hlazy].
    intros q r' m' Hr' Hm'. cbn beta in Hm'.
    pose proof (IH r' q (S count) m' ltac:(lia) Hm'). lia.
Qed.

Lemma card_re_match_digits prev s n :
  card_re_match udb prev s = Some n -> (13 <= digit_count udb s)%nat.
Proof.
  unfold card_re_match. destruct (word_boundary udb prev (head s)); [|discriminate].
  intros H. now apply (card_until_digits (length s) s prev 0 n (Nat.le_refl _)) in H.
Qed.

Lemma card_sub_from_few_digits s : forall prev,
  (digit_count udb s < 13)%nat -> card_sub_from udb prev 0 s = s.
Proof.
  induction s as [|c r IH]; intros prev Hfew; [reflexivity|].
  cbn [card_sub_from].
  destruct (card_re_match udb prev (c :: r)) as [n|] eqn:E.
  - apply card_re_match_digits in E. lia.
  - rewrite IH; [reflexivity|]. pose proof (digit_count_cons c r). lia.
Qed.

(** X2. Text with fewer than thirteen digits is never masked: under a key
    that is not sensitive, [filtered_value] returns such a string as it
    is. *)
Theorem filtered_value_few_digits (key : pyval) (s : pystr) :
  sensitive_key key = false ->
  (digit_count udb s < 13)%nat ->
  filtered_value udb key (PyStr s) = PyStr s.
Proof.
  intros Hkey Hfew. unfold filtered_value. fold (sensitive_key key). rewrite Hkey.
  unfold card_re_sub. now rewrite card_sub_from_few_digits.
Qed.

(** ** Text made of ASCII digits only *)

Lemma ascii_digit_is_digit c : ascii_digit c = true -> is_digit udb c = true.
Proof.
  intros H. unfold is_digit, is_ascii. unfold ascii_digit in H.
  apply andb_true_iff in H as [H1 H2]. apply N.leb_le in H1, H2.
  destruct (N.ltb_spec c 128); [|lia].
  unfold ascii_digit. apply andb_true_iff. split; now apply N.leb_le.
Qed.

Lemma ascii_digit_is_word c : ascii_digit c = true -> is_word udb c = true.
Proof.
  intros H. unfold is_word, is_ascii, ascii_alnum. rewrite H.
  unfold ascii_digit in H.
  apply andb_true_iff in H as [H1 H2]. apply N.leb_le in H1, H2.
  now destruct (N.ltb_spec c 128); [|lia].
Qed.

Lemma ascii_digit_not_sep c : ascii_digit c = true -> is_sep c = false.
Proof.
  intros H. destruct (is_sep c) eqn:E; [|reflexivity].
  apply is_sep_not_digit in E. apply ascii_digit_is_digit in H. congruence.
Qed.

(** Thirteen to sixteen digits in all, none of them left over: the match
    takes them all. *)
Lemma card_until_all_digits ds : forall prev count,
  Forall (fun c => ascii_digit c = true) ds ->
  (13 <= count + length ds <= 16)%nat ->
  opt_word udb prev = true ->
  card_until udb prev ds count = Some (length ds).
Proof.
  induction ds as [|c rest IH]; intros prev count Hds Hlen Hprev; cbn [card_until].
  - cbn [length] in Hlen. destruct (Nat.leb_spec 13 count); [|lia].
    unfold word_boundary. cbn [andb head opt_word]. now rewrite Hprev.
  - cbn [length] in Hlen.
    pose proof (Forall_inv Hds) as Hc. pose proof (Forall_inv_tail Hds) as Hrest.
    cbn beta in Hc. rewrite (ascii_digit_is_digit c Hc).
    destruct (Nat.ltb_spec count 16); [|lia]. cbn [andb].
    assert (Hnext : card_until udb (Some c) rest (S count) = Some (length rest)).
    { apply IH; [exact Hrest | lia | now apply ascii_digit_is_word]. }
    destruct rest as [|c' rest']; cbn [lazy_seps]; now rewrite Hnext.
Qed.

(** More than sixteen digits in a row, after a word character: no match,
    since neither end of a shorter run is at a word boundary. *)
Lemma card_until_too_many_digits ds : forall prev count,
  Forall (fun c => ascii_digit c = true) ds ->
  (16 < count + length ds)%nat -> (count <= 16)%nat ->
  opt_word udb prev = true ->
  card_until udb prev ds count = None.
Proof.
  induction ds as [|c rest IH]; intros prev count Hds Hlen Hcount Hprev.
  - cbn [length] in Hlen. lia.
  - cbn [card_until length] in *.
    pose proof (Forall_inv Hds) as Hc. pose proof (Forall_inv_tail Hds) as Hrest.
    cbn beta in Hc.
    assert (Hclosing :
      (if (13 <=? count)%nat && word_boundary udb prev (head (c :: rest))
       then Some 0%nat else None) = None).
    { unfold word_boundary. cbn [head opt_word].
      rewrite Hprev, (ascii_digit_is_word c Hc). cbn [xorb]. now rewrite andb_false_r. }
    rewrite Hclosing. destruct (is_digit udb c && (count <? 16)%nat) eqn:Hd; [|reflexivity].
    apply andb_true_iff in Hd as [_ Hlt]. apply Nat.ltb_lt in Hlt.
    assert (Hnext : card_until udb (Some c) rest (S count) = None).
    { apply IH; [exact Hrest | lia | lia | now apply ascii_digit_is_word]. }
    destruct rest as [|c' rest']; cbn [lazy_seps]; rewrite Hnext; [reflexivity|].
    pose proof (Forall_inv Hrest) as Hc'. cbn beta in Hc'.
    now rewrite (ascii_digit_not_sep c' Hc').
Qed.

Lemma card_sub_from_skip_all s : forall prev skip,
  (length s <= skip)%nat -> card_sub_from udb prev skip s = [].
Proof.
  induction s as [|c r IH]; intros prev skip Hlen; [reflexivity|].
  cbn [length] in Hlen. destruct skip as [|skip]; [lia|].
  cbn [card_sub_from]. apply IH. lia.
Qed.

(** Inside a run of digits there is no word boundary to start from. *)
Lemma card_sub_from_inside_digits ds : forall prev,
  Forall (fun c => ascii_digit c = true) ds ->
  opt_word udb prev = true ->
  card_sub_from udb prev 0 ds = ds.
Proof.
  induction ds as [|c rest IH]; intros prev Hds Hprev; [reflexivity|].
  pose proof (Forall_inv Hds) as Hc. pose proof (Forall_inv_tail Hds) as Hrest.
  cbn beta in Hc. cbn [card_sub_from]. unfold card_re_match, word_boundary.
  cbn [head opt_word]. rewrite Hprev, (ascii_digit_is_word c Hc). cbn [xorb].
  rewrite IH; [reflexivity | exact Hrest | now apply ascii_digit_is_word].
Qed.

(** X3. A string that consists of ASCII digits only is replaced by the
    marker as a whole when it has thirteen to sixteen digits, and is left
    as it is when it has fewer or more. *)
Theorem card_re_sub_digit_string (ds : pystr) :
  Forall (fun c => ascii_digit c = true) ds ->
  card_re_sub udb ds =
  if (13 <=? length ds)%nat && (length ds <=? 16)%nat then py "[Filtered]" else ds.
Proof.
  intros Hds. unfold card_re_sub.
  destruct (Nat.leb_spec 13 (length ds)) as [Hmin|Hmin]; cbn [andb].
  - destruct ds as [|c rest]; [cbn [length] in Hmin; lia|].
    pose proof (Forall_inv Hds) as Hc. pose proof (Forall_inv_tail Hds) as Hrest.
    cbn beta in Hc. cbn [card_sub_from]. unfold card_re_match, word_boundary.
    cbn [head opt_word]. rewrite (ascii_digit_is_word c Hc). cbn [xorb].
    destruct (Nat.leb_spec (length (c :: rest)) 16) as [Hmax|Hmax].
    + cbn [card_until]. rewrite (ascii_digit_is_digit c Hc). cbn [andb Nat.ltb Nat.leb].
      assert (Hnext : card_until udb (Some c) rest 1 = Some (length rest)).
      { cbn [length] in Hmin, Hmax.
        apply card_until_all_digits; [exact Hrest | lia | now apply ascii_digit_is_word]. }
      assert (Hlazy : lazy_seps (fun p r => card_until udb p r 1) c rest 0
                      = Some (S (length rest))).
      { destruct rest; cbn [lazy_seps]; now rewrite Hnext. }
      rewrite Hlazy. cbn [Nat.pred].
      rewrite card_sub_from_skip_all by lia. apply app_nil_r.
    + cbn [card_until]. rewrite (ascii_digit_is_digit c Hc). cbn [andb Nat.ltb Nat.leb].
      assert (Hnext : card_until udb (Some c) rest 1 = None).
      { cbn [length] in Hmax.
        apply card_until_too_many_digits;
          [exact Hrest | lia | lia | now apply ascii_digit_is_word]. }
      assert (Hlazy : lazy_seps (fun p r => card_until udb p r 1) c rest 0 = None).
      { destruct rest as [|c' rest']; cbn [lazy_seps]; rewrite Hnext; [reflexivity|].
        pose proof (Forall_inv Hrest) as Hc'. cbn beta in Hc'.
        now rewrite (ascii_digit_not_sep c' Hc'). }
      rewrite Hlazy. cbn [head opt_word andb]. 
      rewrite card_sub_from_inside_digits;
        [reflexivity | exact Hrest | now apply ascii_digit_is_word].
  - apply card_sub_from_few_digits. unfold digit_count.
    pose proof (filter_length_le (is_digit udb) ds). lia.
Qed.

End CardFacts.

Lemma filtered_value_few_digits_witness :
  filtered_value latin1_db (PyStr (py "order")) (PyStr (py "placed 2024-01-15, 3 items"))
  = PyStr (py "placed 2024-01-15, 3 items").
Proof.
  apply (filtered_value_few_digits latin1_db (PyStr (py "order"))
           (py "placed 2024-01-15, 3 items")).
  - reflexivity.
  - vm_compute. lia.
Defined.

Lemma card_re_sub_digit_string_witness :
  card_re_sub latin1_db (py "4111111111111111") = py "[Filtered]" /\
  card_re_sub latin1_db (py "12345678901234567") = py "12345678901234567".
Proof.
  split.
  - apply (card_re_sub_digit_string latin1_db (py "4111111111111111")).
    repeat constructor.
  - apply (card_re_sub_digit_string latin1_db (py "12345678901234567")).
    repeat constructor.
Defined.

(* ===================================================================== *)
(** * More on the formatter *)
(* ===================================================================== *)

(** Induction on values, with the hypothesis for every element of a list. *)
Lemma pyval_list_ind (P : pyval -> Prop) :
  P PyNone -> (forall b, P (PyBool b)) -> (forall z, P (PyInt z)) ->
  (forall s, P (PyStr s)) ->
  (forall l, Forall P l -> P (PyList l)) ->
  (forall d, P (PyConfig d)) -> (forall r, P (PyObj r)) ->
  P FilteredValueIndicator -> (forall k, P (RepeatValueIndicator k)) ->
  forall v, P v.
Proof.
  intros HNone HBool HInt HStr HList HConfig HObj HFiltered HRepeat.
  fix IH 1. intros [ |b|z|s|l|d|r| |k].
  - exact HNone.
  - apply HBool.
  - apply HInt.
  - apply HStr.
  - apply HList. induction l as [|x l IHl]; constructor; [apply IH | exact IHl].
  - apply HConfig.
  - apply HObj.
  - exact HFiltered.
  - apply HRepeat.
Qed.

Section ConfigHidden.

Context (udb : unicode_db).

(** While the lambda is in place, what a [Config] holds does not reach the
    [repr] of any value. *)
Lemma repr_filtered_scrub v :
  repr udb FilteredRepr (scrub v) = repr udb FilteredRepr v.
Proof.
  induction v as [ |b|z|s|l IHl|d|r| |k] using pyval_list_ind; try reflexivity.
  cbn [scrub repr]. f_equal.
  induction IHl as [|x l Hx Hl IH]; [reflexivity|].
  cbn [map]. destruct l as [|y l]; [exact Hx|].
  cbn [map] in *. rewrite Hx, IH. reflexivity.
Qed.

Lemma filtered_value_scrub key v :
  filtered_value udb key (scrub v) = scrub (filtered_value udb key v).
Proof.
  unfold filtered_value. destruct (match key with PyStr k => _ | _ => false end);
    [reflexivity|]. now destruct v.
Qed.

Lemma value_text_scrub a v : value_text udb a (scrub v) = value_text udb a v.
Proof.
  unfold value_text. now rewrite filtered_value_scrub, repr_filtered_scrub.
Qed.

Lemma occurrences_of_scrub name locals :
  occurrences_of name (scrub_locals locals) = occurrences_of name locals.
Proof. unfold occurrences_of, scrub_locals. rewrite map_map. reflexivity. Qed.

Lemma locals_text_scrub name locals : forall earlier,
  locals_text udb earlier name (scrub_locals locals) = locals_text udb earlier name locals.
Proof.
  induction locals as [|[attr object] locals IH]; intros earlier; [reflexivity|].
  cbn [scrub_locals map locals_text fst snd obj_id obj_val].
  fold (scrub_locals locals). rewrite IH. f_equal.
  unfold local_text, shown_value. cbn [obj_id obj_val].
  destruct (prior_of earlier (obj_id object)); [reflexivity|].
  now rewrite value_text_scrub.
Qed.

Lemma frames_text_scrub fs : forall earlier,
  frames_text udb earlier (map scrub_frame fs) = frames_text udb earlier fs.
Proof.
  induction fs as [|f fs IH]; intros earlier; [reflexivity|].
  cbn [map frames_text]. destruct f as [c n locals back].
  unfold frame_occurrences, frame_head. cbn [scrub_frame f_code f_lineno f_locals].
  now rewrite locals_text_scrub, occurrences_of_scrub, IH.
Qed.

Lemma string_keyed_scrub fs :
  forallb string_keyed_frame (map scrub_frame fs) = forallb string_keyed_frame fs.
Proof.
  induction fs as [|f fs IH]; [reflexivity|]. cbn [map forallb]. rewrite IH. f_equal.
  destruct f as [c n locals back]. unfold string_keyed_frame, string_keyed.
  cbn [scrub_frame f_locals]. clear. unfold scrub_locals.
  induction locals as [|kv locals IHl]; [reflexivity|].
  simpl. now f_equal.
Qed.

(** X4. The dump under the lock does not show what any [Config] among the
    local variables holds, by itself or inside a list: with the contents of
    every [Config] left out of the frames, the block writes the same text. *)
Theorem locked_dump_hides_config (sio : pystr) (stack : list frame) (w : world) :
  forallb string_keyed_frame stack = true ->
  locked_dump udb sio (map scrub_frame stack) w = locked_dump udb sio stack w.
Proof.
  intros Hkeys.
  rewrite (locked_dump_spec udb sio stack w Hkeys).
  rewrite (locked_dump_spec udb sio (map scrub_frame stack) w)
    by now rewrite string_keyed_scrub.
  now rewrite frames_text_scrub.
Qed.

End ConfigHidden.

Lemma locked_dump_hides_config_witness :
  locked_dump latin1_db [] [scrub_frame frame_with_config] initial_world =
  locked_dump latin1_db [] [frame_with_config] initial_world.
Proof.
  apply (locked_dump_hides_config latin1_db [] [frame_with_config] initial_world).
  reflexivity.
Defined.

(** What the dump of that frame looks like. *)
Example dump_of_frame_with_config :
  locked_dump latin1_db [] [frame_with_config] initial_world =
  Some (Ok (dump_head ++ frame_head frame_with_config ++
            (local_head (py "config") ++ py "<Config [FILTERED]>" ++ NL) ++
            (local_head (py "stack") ++ py "[<Config [FILTERED]>, 1]" ++ NL)),
        initial_world).
Proof. vm_compute. reflexivity. Qed.

Section FormatterExits.

Context (udb : unicode_db).
Context (print_exception : exc_info -> pystr).
Context (flask_sections : pystr -> result pystr).

(** X5. On a traceback whose frames have variables with string names, and
    with the lock free, [formatException] writes the text of
    [print_exception], the heading and the frames from the innermost one
    outwards, each variable shown in full where its object is met first; it
    hands this to the sections for the Flask context, and leaves the lock
    free and [Config.__repr__] as before. *)
Theorem formatException_dump_text (ei : exc_info) (tb : traceback) (w : world) :
  lock_held w = false ->
  ei_tb ei = Some tb ->
  forallb string_keyed_frame (walk_back (tb_frame (innermost tb))) = true ->
  formatException udb print_exception flask_sections ei w =
    Some (rbind
            (flask_sections
               (print_exception ei ++ dump_head ++
                frames_text udb [] (walk_back (tb_frame (innermost tb)))))
            (fun sio => Ok (chop_newline sio)),
          w).
Proof. apply formatException_spec. Qed.

(** X6. However a call of [formatException] made with the lock free ends,
    by returning a text or by raising, the lock is free afterwards.  Whether
    the call ends is not part of this: it does when the [repr] of every
    value shown does. *)
Theorem formatException_ends_with_lock_free (ei : exc_info) (w : world)
    (r : result pystr) (w' : world) :
  lock_held w = false ->
  formatException udb print_exception flask_sections ei w = Some (r, w') ->
  lock_held w' = false.
Proof.
  intros Hfree Hends.
  destruct (formatException_releases_lock udb print_exception flask_sections ei w Hfree)
    as (r0 & w0 & Hrun & Hlock).
  rewrite Hrun in Hends. injection Hends as _ <-. exact Hlock.
Qed.

(** X7. When [formatException] returns a text, the state of the process is
    the one before the call: [Config.__repr__] is restored, the lock is
    free. *)
Theorem formatException_return_leaves_world (ei : exc_info) (w : world)
    (text : pystr) (w' : world) :
  lock_held w = false ->
  formatException udb print_exception flask_sections ei w = Some (Ok text, w') ->
  w' = w.
Proof. apply formatException_return_restores. Qed.

End FormatterExits.

Lemma formatException_dump_text_witness :
  formatException latin1_db (fun _ => py "ValueError: boom") Ok
    (exc_info_of frame_inner_x) initial_world =
  Some (Ok (chop_newline
              (py "ValueError: boom" ++ dump_head ++
               frames_text latin1_db [] [frame_inner_x; frame_outer_x])),
        initial_world).
Proof.
  apply (formatException_dump_text latin1_db (fun _ => py "ValueError: boom") Ok
           (exc_info_of frame_inner_x) (Traceback frame_inner_x None) initial_world);
    reflexivity.
Defined.

Lemma formatException_ends_with_lock_free_witness :
  exists w',
    formatException latin1_db (fun _ => []) Ok
      (exc_info_of frame_exec_none_key) initial_world = Some (Raise TypeError, w') /\
    lock_held w' = false.
Proof.
  refine (ex_intro _ _ (conj _ _)).
  - vm_compute. reflexivity.
  - apply (formatException_ends_with_lock_free latin1_db (fun _ => []) Ok
             (exc_info_of frame_exec_none_key) initial_world (Raise TypeError)
             (set_Config FilteredRepr initial_world)).
    + reflexivity.
    + vm_compute. reflexivity.
Defined.

Lemma formatException_return_leaves_world_witness :
  exists text w',
    formatException latin1_db (fun _ => []) Ok
      (exc_info_of frame_broken_repr) initial_world = Some (Ok text, w') /\
    w' = initial_world.
Proof.
  refine (ex_intro _ _ (ex_intro _ _ (conj _ _))).
  - vm_compute. reflexivity.
  - apply (formatException_return_leaves_world latin1_db (fun _ => []) Ok
             (exc_info_of frame_broken_repr) initial_world
             (chop_newline (dump_head ++ frames_text latin1_db [] [frame_broken_repr]))
             initial_world).
    + reflexivity.
    + vm_compute. reflexivity.
Defined.

(* ===================================================================== *)
(** * [LocalVarFormatter.format] and the cache of [exc_text] *)
(* ===================================================================== *)




Section FormatCache.

Context (udb : unicode_db).
Context (print_exception : exc_info -> pystr).
Context (flask_sections : pystr -> result pystr).
Context (formatMessage : log_record -> pystr).



End FormatCache.


(* ===================================================================== *)
(** * More on the handlers: throttling and delivery *)
(* ===================================================================== *)

Section Throttling.

Context (udb : unicode_db).
Context (clock : nat -> datetime).
Context (post : http_request -> result unit).
Context (format_exception : exc_info -> list pystr).

Lemma not_throttled_spec d key w :
  not_throttled clock d key w =
  Some (Ok (negb (throttled clock d key (clock_reads w))),
        match d !! key with Some _ => tick w | None => w end).
Proof.
  unfold not_throttled, throttled. destruct (d !! key) as [t|]; [|reflexivity].
  unfold bind, utcnow, ret. now rewrite Z.leb_antisym, negb_involutive.
Qed.

(** ** Telegram *)

(** What [emit] does, case by case; [w0] is the state after the throttle
    test, which reads the clock when the table has a time for the key. *)
Lemma TelegramHandler_emit_record_spec (self : TelegramHandler) (record : LogRecord)
    (w : world) :
  let key := (lr_module record, lr_lineno record) in
  let w0 := match error_throttle_timestamp_telegram w !! key with
            | Some _ => tick w
            | None => w
            end in
  TelegramHandler_emit_record clock post format_exception self record w =
  if throttled clock (error_throttle_timestamp_telegram w) key (clock_reads w)
  then Some (Ok tt, w0)
  else
    match lr_message record with
    | None => Some (Raise AttributeError, w0)
    | Some message =>
        let request := telegram_request format_exception self (formatted record message) in
        match post request with
        | Ok _ =>
            Some (Ok tt,
                  set_throttle_telegram
                    (<[key := clock (clock_reads w0)]> (error_throttle_timestamp_telegram w0))
                    (tick (record_request request w0)))
        | Raise e => Some (Raise e, record_request request w0)
        end
    end.
Proof.
  intros key w0. unfold TelegramHandler_emit_record. unfold bind at 1. unfold bind at 1.
  rewrite not_throttled_spec. fold key. fold w0.
  destruct (throttled _ _ _ _); cbn [negb]; [reflexivity|].
  unfold bind at 1, getattr_message.
  destruct (lr_message record) as [message|]; [|reflexivity].
  unfold ret, bind, requests_post, utcnow, telegram_request.
  now destruct (post _) as [[]|e].
Qed.

(** With its [message], the record is handled as the [log_record] it makes. *)
Lemma TelegramHandler_emit_record_formatted (self : TelegramHandler)
    (record : LogRecord) (message : pystr) (w : world) :
  lr_message record = Some message ->
  TelegramHandler_emit_record clock post format_exception self record w =
  TelegramHandler_emit clock post format_exception self (formatted record message) w.
Proof.
  intros Hmessage. unfold TelegramHandler_emit_record, TelegramHandler_emit, getattr_message.
  rewrite Hmessage. reflexivity.
Qed.

(** X9. [TelegramHandler.emit] makes its one request exactly when the
    record is not held back and has the [message] that [Formatter.format]
    sets.  A record is held back when the table of the handler has a time
    for its module and line that the clock is no more than five minutes
    past; it changes nothing but the reading of the clock.  A record that is
    not held back and has no [message] raises [AttributeError]: no request
    is made and the table is not written. *)
Theorem TelegramHandler_emit_throttle (self : TelegramHandler) (record : LogRecord)
    (w : world) :
  exists r w',
    TelegramHandler_emit_record clock post format_exception self record w = Some (r, w') /\
    if throttled clock (error_throttle_timestamp_telegram w)
         (lr_module record, lr_lineno record) (clock_reads w)
    then r = Ok tt /\ w' = tick w
    else
      match lr_message record with
      | Some message =>
          requests_made w' =
            telegram_request format_exception self (formatted record message) ::
            requests_made w
      | None =>
          r = Raise AttributeError /\
          requests_made w' = requests_made w /\
          error_throttle_timestamp_telegram w' = error_throttle_timestamp_telegram w
      end.
Proof.
  rewrite TelegramHandler_emit_record_spec. cbv zeta.
  destruct (throttled _ _ _ _) eqn:Hthrottled.
  - unfold throttled in Hthrottled. destruct (_ !! _); [|discriminate]. eauto.
  - destruct (lr_message record) as [message|].
    + destruct (post _) as [[]|e]; do 2 eexists; (split; [reflexivity|]);
        cbn [requests_made set_throttle_telegram tick record_request];
        destruct (_ !! _); reflexivity.
    + do 2 eexists. split; [reflexivity|]. destruct (_ !! _); repeat split.
Qed.

(** X10. After a call of [TelegramHandler.emit] that returned and made its
    request, a record from the same module and line is not sent while the
    next reading of the clock is within five minutes of the last one: the
    call returns, and nothing changes but the reading of the clock.  This is
    so whatever the second record says, also when it has no [message]. *)
Theorem TelegramHandler_emit_twice (self : TelegramHandler)
    (record again : LogRecord) (w w1 : world) :
  TelegramHandler_emit_record clock post format_exception self record w =
    Some (Ok tt, w1) ->
  requests_made w1 <> requests_made w ->
  lr_module again = lr_module record -> lr_lineno again = lr_lineno record ->
  (clock (clock_reads w1) - clock (Nat.pred (clock_reads w1)) <= five_minutes)%Z ->
  TelegramHandler_emit_record clock post format_exception self again w1 =
    Some (Ok tt, tick w1).
Proof.
  intros Hfirst Hsent Hmodule Hlineno Hclock.
  rewrite TelegramHandler_emit_record_spec in Hfirst. cbv zeta in Hfirst.
  rewrite TelegramHandler_emit_record_spec. cbv zeta. rewrite Hmodule, Hlineno.
  set (key := (lr_module record, lr_lineno record)) in *.
  set (w0 := match error_throttle_timestamp_telegram w !! key with
             | Some _ => tick w
             | None => w
             end) in *.
  assert (Hw0 : requests_made w0 = requests_made w)
    by (subst w0; now destruct (_ !! _)).
  destruct (throttled clock (error_throttle_timestamp_telegram w) key (clock_reads w)).
  { injection Hfirst as <-. now rewrite Hw0 in Hsent. }
  destruct (lr_message record) as [message|]; [|discriminate].
  destruct (post _) as [[]|e]; [|discriminate].
  injection Hfirst as <-.
  cbn [error_throttle_timestamp_telegram set_throttle_telegram clock_reads tick
       record_request Nat.pred] in *.
  unfold throttled. rewrite lookup_insert_eq.
  apply Z.leb_le in Hclock. now rewrite Hclock.
Qed.

(** X11. A message that is not cut has no markup of its own making: every
    [<] in the text sent is one of the handler's tags [<b>], [</b>] and
    [<pre>] closed by [</pre>], whatever the level name, the name of the
    application, the message and the traceback contain. *)
Theorem telegram_text_markup (self : TelegramHandler) (record : log_record) :
  (length (telegram_full_text format_exception self record) <= 4096)%nat ->
  markup (telegram_text format_exception self record).
Proof.
  intros Hshort. unfold telegram_text, telegram_cap.
  destruct (Nat.ltb_spec 4096 (length (telegram_full_text format_exception self record)));
    [lia|].
  apply markup_telegram_full_text.
Qed.

(** ** Slack *)

(** The message is built from the record and the [repr] in force; the rest
    of the state does not count. *)
Lemma slack_data_tick self record data w :
  slack_data udb self record w = Some (Ok data, w) ->
  slack_data udb self record (tick w) = Some (Ok data, tick w).
Proof.
  unfold slack_data, bind, get_Config_repr, lift, ret. cbn [Config_repr tick].
  destruct (rec_exc_info record) as [ei|].
  - destruct (repr udb (Config_repr w) (ei_value ei)); intros H; inversion H; reflexivity.
  - intros H; inversion H; reflexivity.
Qed.

(** The [try] around [requests.post]: it ends normally, with the request
    made when the webhook has a [url]. *)
Lemma slack_attempt data wh w :
  try_except
    (url <- match wh_url wh with
            | Some u => ret u
            | None => raise KeyError
            end ;;
     requests_post post (SlackPost url (slack_payload_for data wh)))
    (ret tt) w =
  Some (Ok tt,
        match wh_url wh with
        | Some url => record_request (SlackPost url (slack_payload_for data wh)) w
        | None => w
        end).
Proof.
  unfold try_except, bind, raise, ret, requests_post.
  destruct (wh_url wh) as [url|]; [|reflexivity].
  now destruct (post _) as [[]|e].
Qed.

(** The loop over the webhooks: the requests it makes, and what it leaves
    in the table. *)
Lemma slack_deliver_all record data key whs : forall w,
  exists w',
    for_each (slack_deliver clock post record data key) tt whs w = Some (Ok tt, w') /\
    requests_made w' = rev (slack_requests record data whs) ++ requests_made w /\
    (existsb (listed record) whs = true ->
     error_throttle_timestamp_slack w' !! key = Some (clock (Nat.pred (clock_reads w')))) /\
    (existsb (listed record) whs = false -> w' = w).
Proof.
  induction whs as [|wh whs IH]; intros w.
  - exists w. cbn. unfold ret. repeat split; congruence.
  - cbn [for_each existsb slack_requests flat_map]. fold (slack_requests record data whs).
    unfold bind at 1, slack_deliver at 1. fold (listed record wh).
    destruct (listed record wh) eqn:Hlisted; cbn [negb orb].
    + cbv zeta. unfold bind at 1. rewrite slack_attempt.
      unfold bind at 1, utcnow at 1.
      set (w0 := match wh_url wh with
                 | Some url => record_request (SlackPost url (slack_payload_for data wh)) w
                 | None => w
                 end).
      set (w1 := set_throttle_slack _ _).
      destruct (IH w1) as (w' & Hrun & Hreq & Hsome & Hnone).
      exists w'. split; [exact Hrun|]. split; [|split; [|discriminate]].
      * rewrite Hreq. subst w1 w0. rewrite rev_app_distr, <- app_assoc. f_equal.
        now destruct (wh_url wh).
      * intros _. destruct (existsb (listed record) whs) eqn:Hrest.
        -- now apply Hsome.
        -- rewrite (Hnone eq_refl). subst w1.
           cbn [error_throttle_timestamp_slack set_throttle_slack clock_reads tick Nat.pred].
           now rewrite lookup_insert_eq.
    + unfold ret. destruct (IH w) as (w' & Hrun & Hreq & Hsome & Hnone).
      exists w'. repeat split; assumption.
Qed.

Lemma str_in_flat_map x (whs : list webhook) :
  str_in x (flat_map get_levelnames whs) =
  existsb (fun wh => str_in x (get_levelnames wh)) whs.
Proof.
  unfold str_in. induction whs as [|wh whs IH]; [reflexivity|].
  cbn [flat_map existsb]. now rewrite existsb_app, IH.
Qed.

Lemma slack_requests_none record data whs :
  existsb (listed record) whs = false -> slack_requests record data whs = [].
Proof.
  induction whs as [|wh whs IH]; [reflexivity|].
  cbn [existsb slack_requests flat_map]. intros [Hwh Hrest]%orb_false_elim.
  rewrite Hwh. now apply IH.
Qed.

(** X12. [SlackHandler.emit] posts to the webhooks that list the level of
    the record and have a [url], in the order of the handler, each with the
    message and the webhook's own channel, user name and icon; a record
    held back by the throttle is posted nowhere.  The call returns whatever
    [requests.post] does. *)
Theorem SlackHandler_emit_requests (self : SlackHandler) (record : log_record)
    (data : slack_payload) (w : world) :
  slack_data udb self record w = Some (Ok data, w) ->
  exists w',
    SlackHandler_emit udb clock post self record w = Some (Ok tt, w') /\
    requests_made w' =
      (if throttled clock (error_throttle_timestamp_slack w)
            (module record, lineno record) (clock_reads w)
       then []
       else rev (slack_requests record data (webhooks self))) ++ requests_made w.
Proof.
  intros Hdata. unfold SlackHandler_emit. unfold bind at 1. unfold bind at 1.
  rewrite not_throttled_spec.
  set (w0 := match _ !! _ with Some _ => tick w | None => w end).
  assert (Hdata0 : slack_data udb self record w0 = Some (Ok data, w0))
    by (subst w0; destruct (_ !! _); [now apply slack_data_tick | exact Hdata]).
  assert (Hreq0 : requests_made w0 = requests_made w)
    by (subst w0; now destruct (_ !! _)).
  destruct (throttled _ _ _ _); cbn [negb].
  - exists w0. split; [reflexivity|exact Hreq0].
  - rewrite str_in_flat_map. fold (listed record).
    destruct (existsb (listed record) (webhooks self)) eqn:Hany; cbn [negb].
    + unfold bind at 1. rewrite Hdata0.
      destruct (slack_deliver_all record data (module record, lineno record)
                  (webhooks self) w0) as (w' & Hrun & Hreq & _).
      exists w'. split; [exact Hrun|]. now rewrite Hreq, Hreq0.
    + exists w0. split; [reflexivity|].
      now rewrite slack_requests_none.
Qed.


End Throttling.

Lemma TelegramHandler_emit_twice_witness :
  TelegramHandler_emit_record (fun n => Z.of_nat n) (fun _ => Ok tt) (fun _ => [])
    sample_telegram unformatted_LogRecord
    (set_throttle_telegram (<[(py "views", 42%Z) := 0%Z]> ∅)
       (tick (record_request
                (telegram_request (fun _ => []) sample_telegram sample_record)
                initial_world))) =
  Some (Ok tt,
        tick (set_throttle_telegram (<[(py "views", 42%Z) := 0%Z]> ∅)
                (tick (record_request
                         (telegram_request (fun _ => []) sample_telegram sample_record)
                         initial_world)))).
Proof.
  apply (TelegramHandler_emit_twice (fun n => Z.of_nat n) (fun _ => Ok tt) (fun _ => [])
           sample_telegram sample_LogRecord unformatted_LogRecord initial_world).
  - reflexivity.
  - discriminate.
  - reflexivity.
  - reflexivity.
  - vm_compute. discriminate.
Defined.

Lemma telegram_text_markup_witness :
  markup (telegram_text (fun _ => []) sample_telegram sample_record).
Proof.
  apply (telegram_text_markup (fun _ => []) sample_telegram sample_record).
  vm_compute. lia.
Defined.

Lemma SlackHandler_emit_requests_witness :
  exists w',
    SlackHandler_emit latin1_db (fun _ => 0%Z) (fun _ => Raise ConnectionError)
      sample_slack sample_record initial_world = Some (Ok tt, w') /\
    requests_made w' =
      [SlackPost (py "https://hooks.example/1")
         {| sp_text := py "*ERROR* in app: it broke: ``";
            sp_attachments := [];
            sp_channel := Some (py "#ops"); sp_username := None; sp_icon_emoji := None |}].
Proof.
  apply (SlackHandler_emit_requests latin1_db (fun _ => 0%Z) (fun _ => Raise ConnectionError)
           sample_slack sample_record
           {| sp_text := py "*ERROR* in app: it broke: ``";
              sp_attachments := [];
              sp_channel := None; sp_username := None; sp_icon_emoji := None |}
           initial_world).
  reflexivity.
Defined.


(* ===================================================================== *)
(** * [sorted_timezones] *)
(* ===================================================================== *)

Module DatetimeFacts.

Import Datetime.

(** X14. For an offset of less than a day either way, [hourmin] gives the
    hours and minutes of its size: of [-t] for a negative offset of [t]
    seconds, which [timedelta] holds as one day back and [86400 + t]
    seconds forward. *)
Theorem hourmin_of_offset (t : Z) :
  (-86400 <= t < 86400)%Z ->
  hourmin (timedelta_of_seconds t) = (Z.abs t / 3600, (Z.abs t mod 3600) / 60)%Z.
Proof.
  intros Ht. unfold hourmin, timedelta_of_seconds, divmod. cbn [days seconds].
  destruct (Z.ltb_spec (t / 86400) 0) as [Hneg|Hpos].
  - assert (t < 0)%Z.
    { destruct (Z.lt_ge_cases t 0) as [|Hge]; [assumption|].
      pose proof (Z.div_pos t 86400 Hge ltac:(lia)). lia. }
    assert (Hmod : (t mod 86400 = t + 86400)%Z).
    { symmetry. apply (Z.mod_unique_pos t 86400 (-1)); lia. }
    rewrite Hmod. replace (86400 - (t + 86400))%Z with (Z.abs t) by lia. reflexivity.
  - assert (0 <= t)%Z.
    { destruct (Z.lt_ge_cases t 0) as [Hlt|]; [|assumption].
      pose proof (Z.div_lt_upper_bound t 86400 0 ltac:(lia) ltac:(lia)). lia. }
    rewrite Z.mod_small by lia. rewrite Z.abs_eq by lia. reflexivity.
Qed.

Lemma hourmin_of_offset_witness :
  hourmin (timedelta_of_seconds (-19800)) = (5, 30)%Z.
Proof.
  apply (hourmin_of_offset (-19800)). lia.
Defined.

Section SortedTimezonesFacts.

Context (common_timezones : list pystr).
Context (country_timezones : list (pystr * list pystr)).
Context (country_names : gmap pystr pystr).
Context (utcoffset : pystr -> timedelta).
Context (tzname : pystr -> pystr).

Lemma timedelta_le_trans a b c :
  timedelta_le a b -> timedelta_le b c -> timedelta_le a c.
Proof.
  unfold timedelta_le, timedelta_ltb. intros Hab Hbc.
  destruct a as [da sa ma], b as [db sb mb], c as [dc sc mc]. cbn [days seconds microseconds] in *.
  repeat match goal with
         | H : (_ || _) = false |- _ => apply orb_false_elim in H; destruct H
         | H : (_ && _) = false |- _ => apply andb_false_iff in H; destruct H
         | H : (_ <? _)%Z = false |- _ => apply Z.ltb_ge in H
         | H : (_ =? _)%Z = false |- _ => apply Z.eqb_neq in H
         end;
    repeat match goal with
           | |- (_ || _) = false => apply orb_false_intro
           | |- (_ <? _)%Z = false => apply Z.ltb_ge; lia
           end;
    try (apply andb_false_iff;
         destruct (Z.eqb_spec dc da); [right|left; reflexivity];
         apply orb_false_intro; [apply Z.ltb_ge; lia|];
         apply andb_false_iff;
         destruct (Z.eqb_spec sc sa); [right; apply Z.ltb_ge; lia|left; reflexivity]).
Qed.

Lemma entry_ltb_le a b :
  entry_ltb a b = true -> timedelta_le (fst (fst a)) (fst (fst b)).
Proof.
  destruct a as [[delta1 l1] n1], b as [[delta2 l2] n2]. cbn [entry_ltb fst].
  unfold timedelta_le, timedelta_ltb, timedelta_eqb.
  destruct delta1 as [da sa ma], delta2 as [db sb mb]. cbn [days seconds microseconds].
  intros H.
  destruct (Z.ltb_spec da db), (Z.eqb_spec da db), (Z.ltb_spec sa sb), (Z.eqb_spec sa sb),
    (Z.ltb_spec ma mb), (Z.eqb_spec ma mb); cbn in H; try discriminate; try lia;
    destruct (Z.ltb_spec db da), (Z.eqb_spec db da), (Z.ltb_spec sb sa), (Z.eqb_spec sb sa),
      (Z.ltb_spec mb ma); cbn; try reflexivity; lia.
Qed.

Lemma entry_not_ltb_le a b :
  entry_ltb a b = false -> timedelta_le (fst (fst b)) (fst (fst a)).
Proof.
  destruct a as [[delta1 l1] n1], b as [[delta2 l2] n2]. cbn [entry_ltb fst].
  unfold timedelta_le. intros H. now apply orb_false_elim in H.
Qed.

Lemma insert_sorted_perm x l : insert_sorted x l ≡ₚ x :: l.
Proof.
  induction l as [|y l IH]; [reflexivity|]. cbn [insert_sorted].
  destruct (entry_ltb x y); [reflexivity|]. rewrite IH. apply Permutation_swap.
Qed.

Lemma sort_perm l : sort l ≡ₚ l.
Proof.
  induction l as [|x l IH]; [reflexivity|]. cbn [sort fold_right].
  fold (sort l). now rewrite insert_sorted_perm, IH.
Qed.

Lemma insert_sorted_sorted x l :
  StronglySorted by_offset l -> StronglySorted by_offset (insert_sorted x l).
Proof.
  induction 1 as [|y l Hl IH Hy]; cbn [insert_sorted].
  - repeat constructor.
  - destruct (entry_ltb x y) eqn:Hxy.
    + constructor; [now constructor|].
      constructor; [now apply entry_ltb_le|].
      eapply Forall_impl; [exact Hy|]. intros z Hz. unfold by_offset in *.
      apply (timedelta_le_trans _ (fst (fst y)));
        [apply entry_ltb_le; exact Hxy | exact Hz].
    + constructor; [exact IH|].
      rewrite insert_sorted_perm. constructor; [now apply entry_not_ltb_le|exact Hy].
Qed.

Lemma sort_sorted l : StronglySorted by_offset (sort l).
Proof.
  induction l as [|x l IH]; [constructor|]. now apply insert_sorted_sorted.
Qed.

(** The first comprehension keeps the names and pairs each with its offset. *)
Lemma comprehension_entries (entries : list (timedelta * pystr)) presorted :
  comprehension
    (fun entry : timedelta * pystr =>
       let '(delta, name) := entry in
       rbind (label country_timezones country_names tzname delta name)
             (fun l => Ok (delta, l, name)))
    entries = Ok presorted ->
  map (fun e : timedelta * pystr * pystr => (fst (fst e), snd e)) presorted = entries.
Proof.
  revert presorted. induction entries as [|[delta name] entries IH]; intros presorted.
  - cbn. now intros [= <-].
  - cbn [comprehension].
    destruct (label _ _ _ delta name) as [l|e]; [|discriminate]. cbn [rbind].
    destruct (comprehension _ entries) as [ys|e]; [|discriminate]. cbn [rbind].
    intros [= <-]. cbn [map fst snd]. now rewrite (IH ys eq_refl).
Qed.

Lemma comprehension_returns (entries : list (timedelta * pystr)) :
  (forall delta name, In (delta, name) entries ->
     exists l, label country_timezones country_names tzname delta name = Ok l) ->
  exists presorted,
    comprehension
      (fun entry : timedelta * pystr =>
         let '(delta, name) := entry in
         rbind (label country_timezones country_names tzname delta name)
               (fun l => Ok (delta, l, name)))
      entries = Ok presorted.
Proof.
  induction entries as [|[delta name] entries IH]; intros Hlabel; [now exists []|].
  cbn [comprehension].
  destruct (Hlabel delta name (or_introl eq_refl)) as [l ->]. cbn [rbind].
  destruct IH as [ys ->]; [intros d n Hin; apply Hlabel; now right|].
  cbn [rbind]. eauto.
Qed.

(** X15. When [pytz] has a name for every country code it maps a zone to,
    [sorted_timezones] returns, and the zones it lists are those of
    [common_timezones] that are not under [US/] or [Canada/] and are not
    [GMT] or [UTC], each once for each time it is in that list. *)
Theorem sorted_timezones_names :
  (forall name countrycode,
     timezone_country country_timezones !! name = Some countrycode ->
     is_Some (country_names !! countrycode)) ->
  exists result,
    sorted_timezones common_timezones country_timezones country_names utcoffset tzname =
      Ok result /\
    map fst result ≡ₚ filter kept common_timezones.
Proof.
  intros Hnames. unfold sorted_timezones.
  destruct (comprehension_returns (timezones common_timezones utcoffset)) as [presorted Hpre].
  { intros delta name _. unfold label, country_prefix.
    destruct (hourmin delta) as [hours minutes].
    destruct (timezone_country country_timezones !! name) as [cc|] eqn:Hcc; [|cbn; eauto].
    destruct (Hnames name cc Hcc) as [country ->]. cbn. eauto. }
  rewrite Hpre. cbn [rbind]. eexists. split; [reflexivity|].
  apply comprehension_entries in Hpre.
  rewrite map_map.
  transitivity (map (fun e : timedelta * pystr * pystr => snd e) presorted).
  - assert (Hnames' : forall l : list (timedelta * pystr * pystr),
              map (fun x => fst (let '(_, label, name) := x in (name, label))) l =
              map (fun e => snd e) l).
    { intros l. apply map_ext. now intros [[d l0] n]. }
    rewrite Hnames'. apply Permutation_map, sort_perm.
  - apply (f_equal (map snd)) in Hpre. rewrite map_map in Hpre. cbn [snd] in Hpre.
    rewrite Hpre. unfold timezones. rewrite map_map. cbn [snd]. now rewrite map_id.
Qed.

(** X16. The list [sorted_timezones] returns is in the order of the offset
    from UTC: no zone comes before one with a smaller offset. *)
Theorem sorted_timezones_by_offset (result : list (pystr * pystr)) :
  sorted_timezones common_timezones country_timezones country_names utcoffset tzname =
    Ok result ->
  StronglySorted (fun a b => timedelta_le (utcoffset (fst a)) (utcoffset (fst b))) result.
Proof.
  unfold sorted_timezones.
  destruct (comprehension _ _) as [presorted|e] eqn:Hpre; [|discriminate].
  cbn [rbind]. intros [= <-].
  apply comprehension_entries in Hpre.
  assert (Hoffset : Forall (fun e : timedelta * pystr * pystr =>
                              fst (fst e) = utcoffset (snd e)) (sort presorted)).
  { rewrite sort_perm. unfold timezones in Hpre.
    clear -Hpre. revert Hpre. generalize (filter kept common_timezones). intros names.
    revert names. induction presorted as [|[[d l] n] presorted IH]; intros names Hpre;
      [constructor|].
    destruct names as [|name names]; [discriminate|]. cbn [map fst snd] in Hpre.
    injection Hpre as Hd Hn Hrest. constructor; [cbn; congruence|].
    now apply (IH names). }
  pose proof (sort_sorted presorted) as Hsorted.
  induction Hsorted as [|[[d l] n] rest Hrest IH Hfirst]; [constructor|].
  apply Forall_cons in Hoffset. destruct Hoffset as [Hd Hoffset]. cbn [fst snd] in Hd.
  cbn [map]. constructor; [now apply IH|]. cbn [fst].
  apply Forall_map. clear IH Hrest.
  induction Hfirst as [|[[d' l'] n'] rest Hle Hfirst IH]; [constructor|].
  apply Forall_cons in Hoffset. destruct Hoffset as [Hd' Hoffset]. cbn [fst snd] in *.
  constructor; [|now apply IH].
  cbn [fst]. subst d d'. exact Hle.
Qed.

End SortedTimezonesFacts.

Lemma sorted_timezones_names_witness :
  exists result,
    sorted_timezones sample_zones sample_country_timezones sample_country_names
      sample_utcoffset sample_tzname = Ok result /\
    map fst result ≡ₚ [py "Asia/Kolkata"; py "Europe/London"; py "America/New_York"].
Proof.
  apply (sorted_timezones_names sample_zones sample_country_timezones sample_country_names
           sample_utcoffset sample_tzname).
  intros name countrycode.
  assert (Hcodes : forall cc, In cc [py "IN"; py "GB"; py "US"] ->
                     is_Some (sample_country_names !! cc)).
  { intros cc Hcc. cbn [In] in Hcc.
    repeat (destruct Hcc as [<- | Hcc]; [vm_compute; eauto|]). contradiction. }
  unfold timezone_country, sample_country_timezones. cbn [fold_left fst snd].
  intros Hcc. apply Hcodes.
  repeat (apply lookup_insert_Some in Hcc; destruct Hcc as [[_ <-]|[_ Hcc]];
          [cbn; tauto|]).
  now rewrite lookup_empty in Hcc.
Defined.

Lemma sorted_timezones_by_offset_witness :
  StronglySorted
    (fun a b => timedelta_le (sample_utcoffset (fst a)) (sample_utcoffset (fst b)))
    [ (py "America/New_York", py "-05:00 - United States: America/New York (EST)");
      (py "Europe/London", py " 00:00 - United Kingdom: Europe/London (GMT)");
      (py "Asia/Kolkata", py "+05:30 - India: Asia/Kolkata (IST)") ].
Proof.
  apply (sorted_timezones_by_offset sample_zones sample_country_timezones
           sample_country_names sample_utcoffset sample_tzname).
  vm_compute. reflexivity.
Defined.

End DatetimeFacts.
